(** * The OpenAI-compatible client adapter of talemate

    A shallow embedding of [src/talemate/client/openai_compat.py]
    (class [OpenAICompatibleClient]) and the properties its specification
    states about it.

    Conventions of the embedding:
    - a Python [str] is a [string]; the adapter only searches for and
      replaces ASCII text, which acts on the UTF-8 bytes of a string as it
      acts on its code points;
    - a Python [dict] with string keys is a [gmap string _]; the adapter
      never depends on the insertion order of a mapping;
    - a method that mutates an object and may raise is a function from the
      object's state to its new state and an [outcome];
    - the parent class [ClientBase], the remote endpoint and the builtin
      [int] on strings are collaborators whose code is not part of the file:
      they are the fields of the classes [ClientBase], [Remote] and
      [Builtins], and every theorem holds for all their implementations. *)

From Stdlib Require Import ZArith String Ascii List.
From Stdlib Require Import PrimFloat SpecFloat FloatOps FloatAxioms.
From stdpp Require Import gmap strings list fin_maps.

Local Open Scope string_scope.

(** ** Exceptions and outcomes *)

(** The exception classes the adapter can meet. All of them are subclasses
    of Python's [Exception]: the signals that derive from [BaseException]
    only (interpreter exit, task cancellation) are not failures of a call
    and are outside the model. *)
Inductive exn : Type :=
  | KeyError (key : string)
  | TypeError
  | ValueError
  | IndexError
  | PermissionDeniedError
  | NotFoundError
  | OverflowError
  | OtherError (name : string).

Inductive outcome (A : Type) : Type :=
  | Ok (a : A)
  | Raise (e : exn).
Arguments Ok {A} a.
Arguments Raise {A} e.

(** A computation over a mutable state [S]: the state it leaves, and the
    value it returns or the exception it raises. *)
Definition M (S A : Type) : Type := S -> S * outcome A.

(** [try: m except h]: the handler runs in the state the body left. *)
Definition try_except {S A} (m : M S A) (h : exn -> M S A) : M S A :=
  fun s => match m s with
           | (s', Ok a) => (s', Ok a)
           | (s', Raise e) => h e s'
           end.

Definition get {S} : M S S := fun s => (s, Ok s).
Definition modify {S} (f : S -> S) : M S unit := fun s => (f s, Ok tt).
Definition lift {S A} (o : outcome A) : M S A := fun s => (s, o).

#[global] Instance M_ret {S} : MRet (M S) := fun A a s => (s, Ok a).

#[global] Instance M_bind {S} : MBind (M S) := fun A B k m s =>
  match m s with
  | (s', Ok a) => k a s'
  | (s', Raise e) => (s', Raise e)
  end.

(** ** Strings *)

Module Str.

(** [s.startswith(pre)] *)
Fixpoint startswith (pre s : string) : bool :=
  match pre, s with
  | EmptyString, _ => true
  | String _ _, EmptyString => false
  | String a pre', String b s' => Ascii.eqb a b && startswith pre' s'
  end.

(** [s[n:]] *)
Fixpoint drop (n : nat) (s : string) : string :=
  match n, s with
  | O, _ => s
  | S _, EmptyString => EmptyString
  | S n', String _ s' => drop n' s'
  end.

(** [sub in s] *)
Fixpoint contains (sub s : string) : bool :=
  startswith sub s ||
  match s with
  | EmptyString => false
  | String _ s' => contains sub s'
  end.

(** The text before and the text after the first occurrence of [sep] in
    [s], scanning from the left; [None] when [sep] does not occur. It is
    [s.partition(sep)] for a separator that occurs. *)
Fixpoint partition (sep s : string) : option (string * string) :=
  if startswith sep s then Some (EmptyString, drop (String.length sep) s)
  else match s with
       | EmptyString => None
       | String c s' =>
           match partition sep s' with
           | Some (l, r) => Some (String c l, r)
           | None => None
           end
       end.

(** [s.split(sep, 1)] for a non-empty separator: one split at most, at the
    first occurrence. *)
Definition split1 (sep s : string) : list string :=
  match partition sep s with
  | Some (l, r) => [l; r]
  | None => [s]
  end.

(** [s.replace(old, new)] for a non-empty [old]: the occurrences of [old]
    are found from left to right, each search starting after the previous
    occurrence. Every round consumes at least one character, so the length
    of [s] is enough fuel. *)
Fixpoint replace_fuel (fuel : nat) (old new s : string) : string :=
  match fuel with
  | O => s
  | S fuel' =>
      match partition old s with
      | None => s
      | Some (l, r) => l ++ new ++ replace_fuel fuel' old new r
      end
  end.

Definition replace (old new s : string) : string :=
  replace_fuel (String.length s) old new s.

(** Truth value of a string: non-empty. *)
Definition nonempty (s : string) : bool :=
  match s with
  | EmptyString => false
  | String _ _ => true
  end.

(** Characters [str.strip()] removes, among the ASCII ones. *)
Definition is_space (c : ascii) : bool :=
  let n := nat_of_ascii c in
  Nat.eqb n 32 || (Nat.leb 9 n && Nat.leb n 13) || (Nat.leb 28 n && Nat.leb n 31).

Fixpoint lstrip (s : string) : string :=
  match s with
  | EmptyString => EmptyString
  | String c s' => if is_space c then lstrip s' else s
  end.

Fixpoint rstrip (s : string) : string :=
  match s with
  | EmptyString => EmptyString
  | String c s' =>
      match rstrip s' with
      | EmptyString => if is_space c then EmptyString else String c EmptyString
      | t => String c t
      end
  end.

(** [s.strip()] *)
Definition strip (s : string) : string := rstrip (lstrip s).

End Str.

(** ** Numbers *)

(** Python's [float] and the operations the adapter applies to it. The
    adapter is written over this interface, so that what does not depend
    on the arithmetic is proved for any; the arithmetic the interpreter
    performs is the instance [binary64], IEEE 754 double precision with
    rounding to nearest even, as the primitive floats of the kernel
    compute it. *)
Class Arith : Type := {
  num : Type;
  nadd : num -> num -> num;
  nsub : num -> num -> num;
  nmul : num -> num -> num;
  (** [float(z)] for an [int]; [None] is [OverflowError] *)
  of_int : Z -> option num;
  (** the literal [0.3] *)
  lit_0_3 : num
}.

#[local] Set Warnings "-inexact-float".

Definition binary64 : Arith := {|
  num := float;
  nadd := PrimFloat.add;
  nsub := PrimFloat.sub;
  nmul := PrimFloat.mul;
  of_int := fun z =>
    let x := SF2Prim (binary_normalize prec emax z 0 false) in
    if PrimFloat.is_infinity x then None else Some x;
  lit_0_3 := 0.3%float
|}.

(** ** Binary64 as integers

    The vocabulary for reading a positive binary64 number
    [S754_finite false m e], of value [m * 2^e], as an integer: every
    exponent that occurs is at least [base], so the value scaled by
    [2^-base] is an integer, and values compare as integers do. *)

Module B64.

Local Open Scope Z_scope.

(** Below every exponent of a number, of a product of two numbers that
    has a normal factor of exponent at least [base + 1074], and of a sum. *)
Definition base : Z := -1200.

(** The value of mantissa [m] at exponent [e], scaled. *)
Definition val (m e : Z) : Z := m * 2 ^ (e - base).

(** The number of binary digits of a mantissa. *)
Definition digits (m : positive) : Z := Zpos (digits2_pos m).

(** What [j] right shifts of [M] leave: the quotient, and no flag raised
    when nothing but zeros was shifted out. *)
Definition shr_inv (M j : Z) (r : shr_record) : Prop :=
  shr_m r = M / 2 ^ j /\
  (M mod 2 ^ j = 0 -> shr_r r = false /\ shr_s r = false).

(** The facts about the constants of [lo <= a + d * u <= hi] that the
    bounds rest on, as one computable test: the four are positive and
    finite, [d] is normal, [lo] is at most [a], and [a + d] is at most
    [hi]. *)
Definition range_check (a d lo hi : float) : bool :=
  match Prim2SF a, Prim2SF d, Prim2SF lo, Prim2SF hi with
  | S754_finite false mA eA, S754_finite false mD eD,
    S754_finite false ml el, S754_finite false mh eh =>
      (digits mD =? 53) && (base + 1074 <=? eD) &&
      (val (Zpos ml) el <=? val (Zpos mA) eA) &&
      (val (Zpos mA) eA + val (Zpos mD) eD <=? val (Zpos mh) eh)
  | _, _, _, _ => false
  end.

End B64.

(** ** Values *)

(** Values of configuration entries: the schema ([Defaults]) has strings,
    integers and booleans, and [None] stands for an unset model or key. *)
Inductive cval : Type :=
  | CNone
  | CBool (b : bool)
  | CInt (z : Z)
  | CStr (s : string).

(** Values of tuning parameters. *)
Inductive pval `{Arith} : Type :=
  | PNone
  | PBool (b : bool)
  | PInt (z : Z)
  | PFloat (x : num)
  | PStr (s : string).

(** Truth value of a configuration value ([bool(v)]). *)
Definition truthy (v : cval) : bool :=
  match v with
  | CNone => false
  | CBool b => b
  | CInt z => negb (Z.eqb z 0)
  | CStr s => Str.nonempty s
  end.

(** [a or b] *)
Definition py_or (a b : cval) : cval := if truthy a then a else b.

(** [d.get(k)] *)
Definition dict_get (d : gmap string cval) (k : string) : cval :=
  default CNone (d !! k).

(** [d.get(k, dflt)] *)
Definition dict_get_default (d : gmap string cval) (k : string) (dflt : cval) : cval :=
  default dflt (d !! k).

(** [d[k]] *)
Definition getitem {V} (d : gmap string V) (k : string) : outcome V :=
  match d !! k with
  | Some v => Ok v
  | None => Raise (KeyError k)
  end.

(** [k in d] *)
Definition dict_in {V} (k : string) (d : gmap string V) : bool :=
  bool_decide (is_Some (d !! k)).

(** [list(d.keys())] *)
Definition dict_keys {V} (d : gmap string V) : list string :=
  (map_to_list d).*1.

(** [x in l] for a list of strings *)
Definition list_in (x : string) (l : list string) : bool :=
  bool_decide (x ∈ l).

(** [d.pop(k)] *)
Definition dict_pop {V} (k : string) : M (gmap string V) V := fun d =>
  match d !! k with
  | Some v => (delete k d, Ok v)
  | None => (d, Raise (KeyError k))
  end.

(** [d[k] = v] *)
Definition setitem {V} (k : string) (v : V) : M (gmap string V) unit :=
  modify (insert k v).

(** [del d[k]] *)
Definition delitem {V} (k : string) : M (gmap string V) unit := fun d =>
  match d !! k with
  | Some _ => (delete k d, Ok tt)
  | None => (d, Raise (KeyError k))
  end.

(** [for x in l: body(x)] *)
Fixpoint for_each {S A} (l : list A) (body : A -> M S unit) : M S unit :=
  match l with
  | [] => mret tt
  | x :: l' => body x;; for_each l' body
  end.

(** [l[0]] *)
Definition first {A} (l : list A) : outcome A :=
  match l with
  | x :: _ => Ok x
  | [] => Raise IndexError
  end.

(** The operand of [v + x] for a [float] [x]: an [int] or a [bool] on the
    left is converted, a string or [None] is a [TypeError]. *)
Definition as_float `{Arith} (v : pval) : outcome num :=
  match v with
  | PFloat x => Ok x
  | PInt z => match of_int z with Some x => Ok x | None => Raise OverflowError end
  | PBool b => match of_int (Z.b2z b) with Some x => Ok x | None => Raise OverflowError end
  | PNone | PStr _ => Raise TypeError
  end.

(** [v + x] *)
Definition py_add `{Arith} (v : pval) (x : num) : outcome num :=
  match as_float v with
  | Ok y => Ok (nadd y x)
  | Raise e => Raise e
  end.

(** [random.uniform(a, b)], which is [a + (b - a) * random.random()];
    [u] is the value [random.random()] returns. *)
Definition uniform `{Arith} (a b u : num) : num := nadd a (nmul (nsub b a) u).

(** ** The adapter's state *)

(** An [AsyncOpenAI] object: what it was constructed with, and the identity
    of the object. *)
Record handle : Type := {
  handle_id : nat;
  base_url : cval;
  handle_api_key : cval
}.

(** The attributes of an [OpenAICompatibleClient]. *)
Record adapter : Type := {
  model_name : cval;
  api_key : cval;
  api_url : cval;
  max_token_length : cval;
  api_handles_prompt_template : cval;
  client : handle
}.

(** The adapter together with the number of [AsyncOpenAI] objects
    constructed so far, which names the next one. *)
Record world : Type := {
  self : adapter;
  fresh : nat
}.

(** A call of [emit(channel, message=..., status=...)]. *)
Record emission : Type := {
  channel : string;
  message : string;
  status : string
}.

(** A completion response: the [text] of each of its [choices]. *)
Record choice : Type := { text : string }.
Record response : Type := { choices : list choice }.

(** What [generate] acts on besides the adapter: the caller's parameter
    mapping, and the emissions made so far. *)
Record gen_state `{Arith} : Type := {
  parameters : gmap string pval;
  emitted : list emission
}.

(** ** Collaborators *)

(** The methods of the parent class that the adapter calls through
    [super()]. *)
Class ClientBase `{Arith} : Type := {
  (** [super().__init__] with the remaining keyword arguments, on the object whose [model_name],
      [api_key] and [api_handles_prompt_template] are already set *)
  base_init : cval -> cval -> cval -> gmap string cval -> world;
  (** [super().tune_prompt_parameters(parameters, kind)] *)
  base_tune_prompt_parameters : adapter -> string -> M (gmap string pval) unit;
  (** [super().prompt_template(system_message, prompt)] *)
  base_prompt_template : adapter -> string -> string -> outcome string
}.

(** The remote endpoint: [await client.completions.create(model=..., ...)]
    with the keyword arguments of the mapping. *)
Class Remote `{Arith} : Type := {
  completions_create : handle -> cval -> gmap string pval -> outcome response
}.

(** The builtin [int(s)] on a string; [None] is [ValueError]. *)
Class Builtins : Type := {
  int_of_str : string -> option Z
}.

(** ** The adapter *)

Section Adapter.

Context `{Arith} `{!ClientBase} `{!Remote} `{!Builtins}.

Definition BOT : string := "<|BOT|>".

Definition CUE : string := String (ascii_of_nat 10) "Start your response with: ".

Definition allowed_params : list string :=
  ["max_tokens"; "presence_penalty"; "top_p"; "temperature"].

(** [__init__]: the three attributes are set, then the parent's
    initialiser runs. Defaults: [model=None], [api_key=None],
    [api_handles_prompt_template=False]. *)
Definition init (model key handles : cval) (kwargs : gmap string cval) : world :=
  base_init model key handles kwargs.

(** The property [can_be_coerced]. *)
Definition can_be_coerced (a : adapter) : bool :=
  negb (truthy (api_handles_prompt_template a)).

(** [AsyncOpenAI(base_url=url, api_key=key)]: a new object. *)
Definition AsyncOpenAI (url key : cval) : M world handle := fun w =>
  ({| self := self w; fresh := S (fresh w) |},
   Ok {| handle_id := fresh w; base_url := url; handle_api_key := key |}).

Definition set_model_name (v : cval) : M world unit :=
  modify (fun w => {| self := {| model_name := v;
                                 api_key := api_key (self w);
                                 api_url := api_url (self w);
                                 max_token_length := max_token_length (self w);
                                 api_handles_prompt_template := api_handles_prompt_template (self w);
                                 client := client (self w) |};
                      fresh := fresh w |}).

Definition set_api_key (v : cval) : M world unit :=
  modify (fun w => {| self := {| model_name := model_name (self w);
                                 api_key := v;
                                 api_url := api_url (self w);
                                 max_token_length := max_token_length (self w);
                                 api_handles_prompt_template := api_handles_prompt_template (self w);
                                 client := client (self w) |};
                      fresh := fresh w |}).

Definition set_api_url (v : cval) : M world unit :=
  modify (fun w => {| self := {| model_name := model_name (self w);
                                 api_key := api_key (self w);
                                 api_url := v;
                                 max_token_length := max_token_length (self w);
                                 api_handles_prompt_template := api_handles_prompt_template (self w);
                                 client := client (self w) |};
                      fresh := fresh w |}).

Definition set_max_token_length (v : cval) : M world unit :=
  modify (fun w => {| self := {| model_name := model_name (self w);
                                 api_key := api_key (self w);
                                 api_url := api_url (self w);
                                 max_token_length := v;
                                 api_handles_prompt_template := api_handles_prompt_template (self w);
                                 client := client (self w) |};
                      fresh := fresh w |}).

Definition set_api_handles_prompt_template (v : cval) : M world unit :=
  modify (fun w => {| self := {| model_name := model_name (self w);
                                 api_key := api_key (self w);
                                 api_url := api_url (self w);
                                 max_token_length := max_token_length (self w);
                                 api_handles_prompt_template := v;
                                 client := client (self w) |};
                      fresh := fresh w |}).

Definition set_client_attr (h : handle) : M world unit :=
  modify (fun w => {| self := {| model_name := model_name (self w);
                                 api_key := api_key (self w);
                                 api_url := api_url (self w);
                                 max_token_length := max_token_length (self w);
                                 api_handles_prompt_template := api_handles_prompt_template (self w);
                                 client := h |};
                      fresh := fresh w |}).

(** [set_client] with keyword arguments [kwargs] *)
Definition set_client (kwargs : gmap string cval) : M world unit :=
  w ← get;
  set_api_key (dict_get_default kwargs "api_key" (api_key (self w)));;
  set_api_handles_prompt_template
    (dict_get_default kwargs "api_handles_prompt_template"
       (api_handles_prompt_template (self w)));;
  w ← get;
  let url := api_url (self w) in
  h ← AsyncOpenAI url (api_key (self w));
  set_client_attr h;;
  w ← get;
  set_model_name
    (py_or (py_or (dict_get kwargs "model") (dict_get kwargs "model_name"))
       (model_name (self w))).

(** [int(v)] *)
Definition py_int (v : cval) : outcome cval :=
  match v with
  | CNone => Raise TypeError
  | CBool b => Ok (CInt (Z.b2z b))
  | CInt z => Ok (CInt z)
  | CStr s => match int_of_str s with
              | Some z => Ok (CInt z)
              | None => Raise ValueError
              end
  end.

(** [reconfigure] with keyword arguments [kwargs] *)
Definition reconfigure (kwargs : gmap string cval) : M world unit :=
  (if truthy (dict_get kwargs "model")
   then v ← lift (getitem kwargs "model"); set_model_name v
   else mret tt);;
  (if dict_in "api_url" kwargs
   then v ← lift (getitem kwargs "api_url"); set_api_url v
   else mret tt);;
  (if dict_in "max_token_length" kwargs
   then v ← lift (getitem kwargs "max_token_length");
        n ← (if truthy v then lift (py_int v) else mret (CInt 8192));
        set_max_token_length n
   else mret tt);;
  (if dict_in "api_key" kwargs
   then v ← lift (getitem kwargs "api_key"); set_api_key v
   else mret tt);;
  (if dict_in "api_handles_prompt_template" kwargs
   then v ← lift (getitem kwargs "api_handles_prompt_template");
        set_api_handles_prompt_template v
   else mret tt);;
  set_client kwargs.

(** [tune_prompt_parameters(parameters, kind)] *)
Definition tune_prompt_parameters (a : adapter) (kind : string)
  : M (gmap string pval) unit :=
  base_tune_prompt_parameters a kind;;
  d ← get;
  (if dict_in "repetition_penalty" d
   then v ← dict_pop "repetition_penalty"; setitem "presence_penalty" v
   else mret tt);;
  d ← get;
  for_each (dict_keys d)
    (fun param => if list_in param allowed_params then mret tt else delitem param).

(** [prompt_template(system_message, prompt)] *)
Definition prompt_template (a : adapter) (system_message prompt : string)
  : outcome string :=
  if negb (truthy (api_handles_prompt_template a))
  then base_prompt_template a system_message prompt
  else if Str.contains BOT prompt
  then match Str.split1 BOT prompt with
       | [_; right_] =>
           if Str.nonempty right_
           then Ok (Str.replace BOT CUE prompt)
           else Ok (Str.replace BOT "" prompt)
       | _ => Raise ValueError
       end
  else Ok prompt.

(** [get_model_name()] *)
Definition get_model_name (a : adapter) : cval := model_name a.

(** [emit(channel, message=message, status=status)]: the channel is the
    list of what was emitted, and emitting does not fail. *)
Definition emit (ch msg st : string) : M gen_state unit :=
  modify (fun g => {| parameters := parameters g;
                      emitted := emitted g ++ [{| channel := ch; message := msg; status := st |}] |}).

(** [parameters[k] = v] on the caller's mapping *)
Definition set_parameter (k : string) (v : pval) : M gen_state unit :=
  modify (fun g => {| parameters := <[k := v]> (parameters g); emitted := emitted g |}).

(** [client.completions.create(model=model_name, **parameters)]: a mapping
    that has the key [model] itself gives the keyword twice, a
    [TypeError] of the call. *)
Definition call_create (a : adapter) : M gen_state response := fun g =>
  (g, if dict_in "model" (parameters g) then Raise TypeError
      else completions_create (client a) (model_name a) (parameters g)).

(** [generate(prompt, parameters, kind)]; the calls of the logger leave no
    trace in the state. *)
Definition generate (a : adapter) (prompt kind : string) : M gen_state string :=
  let human_message := [("role", "user"); ("content", Str.strip prompt)] in
  set_parameter "prompt" (PStr prompt);;
  try_except
    (response ← call_create a;
     c ← lift (first (choices response));
     mret (text c))
    (fun e => match e with
              | PermissionDeniedError =>
                  emit "status" "Client API: Permission Denied" "error";;
                  mret ""
              | _ =>
                  emit "status" "Error during generation (check logs)" "error";;
                  mret ""
              end).

(** [jiggle_randomness(prompt_config, offset)]; [u1] and [u2] are what the
    two calls of [random.random()] return. *)
Definition jiggle_randomness (offset u1 u2 : num) : M (gmap string pval) unit :=
  d ← get;
  temp ← lift (getitem d "temperature");
  let rep_pen_key :=
    if dict_in "frequency_penalty" d then "frequency_penalty"
    else "repetition_penalty" in
  rep_pen ← lift (getitem d rep_pen_key);
  let min_offset := nmul offset lit_0_3 in
  lo ← lift (py_add temp min_offset);
  hi ← lift (py_add temp offset);
  setitem "temperature" (PFloat (uniform lo hi u1));;
  lo ← lift (py_add rep_pen (nmul min_offset lit_0_3));
  hi ← lift (py_add rep_pen (nmul offset lit_0_3));
  setitem rep_pen_key (PFloat (uniform lo hi u2)).

End Adapter.

(** ** Implementations of the collaborators for concrete runs *)

(** A parent class that does the least: its initialiser fills the remaining
    attributes from the class defaults, its tuning step writes one entry of
    its own, and its template returns the prompt as it is. *)
Definition stub_base (A : Arith) : ClientBase := {|
  base_init := fun model key handles kwargs =>
    let url := dict_get_default kwargs "api_url" (CStr "http://localhost:5000") in
    {| self := {| model_name := model;
                  api_key := key;
                  api_url := url;
                  max_token_length := CInt 8192;
                  api_handles_prompt_template := handles;
                  client := {| handle_id := 0; base_url := url; handle_api_key := key |} |};
       fresh := 1 |};
  base_tune_prompt_parameters := fun _ _ => setitem "stream" (PBool false);
  base_prompt_template := fun _ _ prompt => Ok prompt
|}.



(** An endpoint that answers every call with the same outcome. *)
Definition stub_remote (A : Arith) (o : outcome response) : Remote := {|
  completions_create := fun _ _ _ => o
|}.

(** [int] on strings that knows no numeral. *)
Definition stub_builtins : Builtins := {| int_of_str := fun _ => None |}.

(** An adapter whose API handles the prompt template, and one whose API
    does not. *)
Definition handled_world : world :=
  @init binary64 (stub_base binary64) (CStr "m") (CStr "k") (CBool true) ∅.

Definition plain_world : world :=
  @init binary64 (stub_base binary64) CNone CNone (CBool false) ∅.

(** The mapping of the specification's example. *)
Definition example_config (A : Arith) (temperature penalty : num) : gmap string pval :=
  {[ "temperature" := PFloat temperature; "frequency_penalty" := PFloat penalty ]}.


(** ** Vocabulary of the statements *)

Section Vocabulary.

Context `{Arith} `{!ClientBase} `{!Remote} `{!Builtins}.

(** The keys [reconfigure] and [set_client] read. *)
Definition recognized_keys : list string :=
  ["model"; "model_name"; "api_url"; "max_token_length"; "api_key";
   "api_handles_prompt_template"].

(** The adapters a program can hold: constructed, then reconfigured or
    given a new client any number of times. A call that raised has still
    left its state. *)
Inductive reachable : world -> Prop :=
  | reachable_init model key handles kwargs :
      reachable (init model key handles kwargs)
  | reachable_reconfigure w kwargs w' o :
      reachable w -> reconfigure kwargs w = (w', o) -> reachable w'
  | reachable_set_client w kwargs w' o :
      reachable w -> set_client kwargs w = (w', o) -> reachable w'.

(** What [reconfigure] computes for [max_token_length], from the stored
    value [old]. *)
Definition token_length_after (kwargs : gmap string cval) (old : cval)
  : outcome cval :=
  match kwargs !! "max_token_length" with
  | Some v => if truthy v then py_int v else Ok (CInt 8192)
  | None => Ok old
  end.

(** What [reconfigure] assigns to [model_name] before it calls
    [set_client]. *)
Definition model_name_first (kwargs : gmap string cval) (old : cval) : cval :=
  if truthy (dict_get kwargs "model") then dict_get kwargs "model" else old.

(** The two notifications of [generate]. *)
Definition denied_emission : emission :=
  {| channel := "status"; message := "Client API: Permission Denied";
     status := "error" |}.

Definition generic_emission : emission :=
  {| channel := "status"; message := "Error during generation (check logs)";
     status := "error" |}.

(** The caller's state once the prompt is written into the mapping. *)
Definition with_prompt (prompt : string) (g : gen_state) : gen_state :=
  {| parameters := <["prompt" := PStr prompt]> (parameters g);
     emitted := emitted g |}.

(** The same state after one more emission. *)
Definition with_emission (e : emission) (g : gen_state) : gen_state :=
  {| parameters := parameters g; emitted := emitted g ++ [e] |}.

(** The outcome of the remote call [generate] makes. *)
Definition remote_outcome (a : adapter) (prompt : string) (g : gen_state)
  : outcome response :=
  (call_create a (with_prompt prompt g)).2.

(** The repetition-control key [jiggle_randomness] uses. *)
Definition rep_pen_key_of (d : gmap string pval) : string :=
  if dict_in "frequency_penalty" d then "frequency_penalty" else "repetition_penalty".

End Vocabulary.

(** ** Strings: first occurrence and replacement *)

Module StrFacts.
Import Str.

Lemma append_cons c s t : String c s ++ t = String c (s ++ t).
Proof. reflexivity. Qed.

Lemma append_nil_r s : s ++ "" = s.
Proof. induction s as [|c s IH]; [reflexivity|]. rewrite append_cons, IH. reflexivity. Qed.

Lemma length_append s t :
  String.length (s ++ t) = String.length s + String.length t.
Proof.
  induction s as [|c s IH]; [reflexivity|].
  rewrite append_cons. simpl. rewrite IH. reflexivity.
Qed.

Lemma startswith_append sep r : startswith sep (sep ++ r) = true.
Proof.
  induction sep as [|c sep IH]; [reflexivity|].
  rewrite append_cons. simpl. rewrite Ascii.eqb_refl. exact IH.
Qed.

Lemma startswith_drop sep s :
  startswith sep s = true -> s = sep ++ drop (String.length sep) s.
Proof.
  revert s. induction sep as [|c sep IH]; intros s Hs; [reflexivity|].
  destruct s as [|b s]; [discriminate|]. simpl in Hs.
  apply andb_prop in Hs as [Hc Hs]. apply Ascii.eqb_eq in Hc. subst b.
  rewrite append_cons. simpl. f_equal. apply IH, Hs.
Qed.

(** What [partition] returns are the two sides of an occurrence. *)
Lemma partition_Some sep s l r :
  partition sep s = Some (l, r) -> s = l ++ sep ++ r.
Proof.
  revert l. induction s as [|c s IH]; intros l; simpl.
  - destruct (startswith sep "") eqn:Hp; [|discriminate].
    intros [= <- <-]. apply (startswith_drop sep ""), Hp.
  - destruct (startswith sep (String c s)) eqn:Hp.
    + intros [= <- <-]. apply (startswith_drop sep (String c s)), Hp.
    + destruct (partition sep s) as [[l0 r0]|]; [|discriminate].
      intros [= <- <-]. rewrite append_cons. f_equal. apply IH. reflexivity.
Qed.

(** The occurrence is the first one: no other starts further left. *)
Lemma partition_first sep s l r l' r' :
  partition sep s = Some (l, r) -> s = l' ++ sep ++ r' ->
  String.length l <= String.length l'.
Proof.
  revert l l'. induction s as [|c s IH]; intros l l'; simpl.
  - destruct (startswith sep ""); [|discriminate]. intros [= <- <-] _. simpl. lia.
  - destruct (startswith sep (String c s)) eqn:Hp.
    + intros [= <- <-] _. simpl. lia.
    + destruct (partition sep s) as [[l0 r0]|] eqn:Hq; [|discriminate].
      intros [= <- <-] Hs. destruct l' as [|b l'].
      * change ("" ++ sep ++ r') with (sep ++ r') in Hs.
        rewrite Hs, startswith_append in Hp. discriminate.
      * rewrite append_cons in Hs. injection Hs as -> Hs.
        simpl. apply le_n_S. apply (IH l0 l'); [reflexivity|exact Hs].
Qed.

Lemma partition_length sep s l r :
  partition sep s = Some (l, r) ->
  String.length s = String.length l + String.length sep + String.length r.
Proof.
  intros Hp. apply partition_Some in Hp. rewrite Hp, !length_append. lia.
Qed.

(** [partition] finds an occurrence exactly when [contains] sees one. *)
Lemma partition_None sep s : partition sep s = None <-> contains sep s = false.
Proof.
  induction s as [|c s IH]; simpl.
  - destruct (startswith sep ""); simpl; split; congruence.
  - destruct (startswith sep (String c s)); simpl; [split; congruence|].
    destruct (partition sep s) as [[l0 r0]|]; split; intros Hx.
    + discriminate.
    + apply IH in Hx. discriminate.
    + apply IH. reflexivity.
    + reflexivity.
Qed.

Lemma partition_is_Some sep s :
  contains sep s = true -> exists l r, partition sep s = Some (l, r).
Proof.
  intros Hc. destruct (partition sep s) as [[l r]|] eqn:Hp; [eauto|].
  apply partition_None in Hp. congruence.
Qed.

(** The length of the string is enough fuel for [replace_fuel]. *)
Lemma replace_fuel_enough old new n s :
  old <> "" -> String.length s <= n ->
  replace_fuel n old new s = replace old new s.
Proof.
  intros Hold. unfold replace.
  assert (Hgen : forall m k t, String.length t <= m -> String.length t <= k ->
                   replace_fuel m old new t = replace_fuel k old new t).
  { induction m as [|m IH]; intros k t Hm Hk.
    - destruct t; [|simpl in Hm; lia]. destruct k; cbn [replace_fuel]; [reflexivity|].
      destruct (partition old "") as [[l r]|] eqn:Hp; [|reflexivity].
      apply partition_length in Hp. destruct old; [congruence|simpl in Hp; lia].
    - destruct k as [|k].
      + destruct t; [|simpl in Hk; lia]. cbn [replace_fuel].
        destruct (partition old "") as [[l r]|] eqn:Hp; [|reflexivity].
        apply partition_length in Hp. destruct old; [congruence|simpl in Hp; lia].
      + cbn [replace_fuel]. destruct (partition old t) as [[l r]|] eqn:Hp; [|reflexivity].
        apply partition_length in Hp.
        assert (0 < String.length old) by (destruct old; [congruence|simpl; lia]).
        do 2 f_equal. apply IH; lia. }
  intros Hn. apply Hgen; [exact Hn|lia].
Qed.

(** [replace] rewrites the first occurrence and goes on in the text after
    it. *)
Lemma replace_step old new s l r :
  old <> "" -> partition old s = Some (l, r) ->
  replace old new s = l ++ new ++ replace old new r.
Proof.
  intros Hold Hp. unfold replace at 1.
  pose proof (partition_length _ _ _ _ Hp) as Hlen.
  assert (0 < String.length old) by (destruct old; [congruence|simpl; lia]).
  destruct (String.length s) as [|n] eqn:Hs; [lia|].
  cbn [replace_fuel]. rewrite Hp. do 2 f_equal. apply replace_fuel_enough; [exact Hold|lia].
Qed.

(** Without an occurrence [replace] changes nothing. *)
Lemma replace_absent old new s : partition old s = None -> replace old new s = s.
Proof.
  intros Hp. unfold replace. destruct (String.length s); cbn [replace_fuel]; [reflexivity|].
  rewrite Hp. reflexivity.
Qed.

End StrFacts.

(** ** Prompt assembly *)

Section PromptTemplate.

Context `{Arith} `{!ClientBase}.

Lemma BOT_nonempty : BOT <> "".
Proof. discriminate. Qed.

(** With the flag set, a prompt without the marker is returned as it is. *)
Lemma prompt_template_no_marker a system_message prompt :
  truthy (api_handles_prompt_template a) = true ->
  Str.contains BOT prompt = false ->
  prompt_template a system_message prompt = Ok prompt.
Proof. intros Hf Hc. unfold prompt_template. rewrite Hf, Hc. reflexivity. Qed.

(** With the flag set and the marker present, the branch is chosen by the
    text after the first marker, and the replacement runs over the whole
    prompt. *)
Lemma prompt_template_marker a system_message prompt l r :
  truthy (api_handles_prompt_template a) = true ->
  Str.partition BOT prompt = Some (l, r) ->
  prompt_template a system_message prompt =
    Ok (Str.replace BOT (if Str.nonempty r then CUE else "") prompt).
Proof.
  intros Hf Hp. unfold prompt_template. rewrite Hf. cbn [negb].
  destruct (Str.contains BOT prompt) eqn:Hc.
  - unfold Str.split1. rewrite Hp. destruct (Str.nonempty r); reflexivity.
  - apply StrFacts.partition_None in Hc. congruence.
Qed.

(** Without the flag the parent's template decides. *)
Lemma prompt_template_delegates a system_message prompt :
  truthy (api_handles_prompt_template a) = false ->
  prompt_template a system_message prompt =
    base_prompt_template a system_message prompt.
Proof. intros Hf. unfold prompt_template. rewrite Hf. reflexivity. Qed.

(** C1, as amended. When the API handles the prompt template,
    [prompt_template] returns a prompt without the marker unchanged; when
    the marker occurs and text follows its first occurrence, every
    occurrence of the marker is replaced by the cue, which for a prompt
    with one marker is the text before it, the cue and the text after it;
    when nothing follows the first occurrence, the marker is removed and
    the text before it is returned. The two examples of the specification
    hold. *)
Theorem prompt_template_api_handled a system_message prompt :
  truthy (api_handles_prompt_template a) = true ->
  (Str.contains BOT prompt = false ->
     prompt_template a system_message prompt = Ok prompt) /\
  (forall l r, Str.partition BOT prompt = Some (l, r) -> r <> "" ->
     prompt_template a system_message prompt =
       Ok (l ++ CUE ++ Str.replace BOT CUE r)) /\
  (forall l r, Str.partition BOT prompt = Some (l, r) -> r <> "" ->
     Str.contains BOT r = false ->
     prompt_template a system_message prompt = Ok (l ++ CUE ++ r)) /\
  (forall l, Str.partition BOT prompt = Some (l, "") ->
     prompt_template a system_message prompt = Ok l) /\
  prompt_template a system_message "Hello <|BOT|>world" =
    Ok ("Hello " ++ CUE ++ "world") /\
  prompt_template a system_message "Hello <|BOT|>" = Ok "Hello ".
Proof.
  intros Hf. repeat split.
  - apply prompt_template_no_marker, Hf.
  - intros l r Hp Hr.
    rewrite (prompt_template_marker _ _ _ l r Hf Hp).
    destruct r; [congruence|]. cbn [Str.nonempty].
    rewrite (StrFacts.replace_step _ _ _ l _ BOT_nonempty Hp). reflexivity.
  - intros l r Hp Hr Hc.
    rewrite (prompt_template_marker _ _ _ l r Hf Hp).
    destruct r; [congruence|]. cbn [Str.nonempty].
    rewrite (StrFacts.replace_step _ _ _ l _ BOT_nonempty Hp).
    apply StrFacts.partition_None in Hc.
    rewrite (StrFacts.replace_absent _ _ _ Hc). reflexivity.
  - intros l Hp.
    rewrite (prompt_template_marker _ _ _ l "" Hf Hp). cbn [Str.nonempty].
    rewrite (StrFacts.replace_step _ _ _ l _ BOT_nonempty Hp).
    change (Str.replace BOT "" "") with "".
    change ("" ++ "") with "". rewrite StrFacts.append_nil_r. reflexivity.
  - rewrite (prompt_template_marker a system_message "Hello <|BOT|>world"
               "Hello " "world" Hf eq_refl).
    reflexivity.
  - rewrite (prompt_template_marker a system_message "Hello <|BOT|>"
               "Hello " "" Hf eq_refl).
    reflexivity.
Qed.

End PromptTemplate.

(** C1 at the specification's first example. *)
Lemma prompt_template_api_handled_witness :
  @prompt_template binary64 (stub_base binary64) (self handled_world) ""
    "Hello <|BOT|>world"
  = Ok ("Hello " ++ CUE ++ "world").
Proof.
  destruct (@prompt_template_api_handled binary64 (stub_base binary64)
              (self handled_world) "" "Hello <|BOT|>world" eq_refl)
    as (_ & Hcue & _).
  exact (Hcue "Hello " "world" eq_refl ltac:(discriminate)).
Defined.

(** C1 as stated fails on a prompt with two markers: text follows the
    first marker, and the result is not the text before it, the cue and
    the text after it, because the second marker is replaced too. *)
Lemma prompt_template_marker_twice :
  Str.partition BOT "a<|BOT|>b<|BOT|>c" = Some ("a", "b<|BOT|>c") /\
  @prompt_template binary64 (stub_base binary64) (self handled_world) ""
    "a<|BOT|>b<|BOT|>c"
  = Ok ("a" ++ CUE ++ "b" ++ CUE ++ "c") /\
  @prompt_template binary64 (stub_base binary64) (self handled_world) ""
    "a<|BOT|>b<|BOT|>c"
  <> Ok ("a" ++ CUE ++ "b<|BOT|>c").
Proof. repeat split. discriminate. Qed.

(** ** Parameter tuning *)

Section Tuning.

Context `{Arith} `{!ClientBase}.

(** The keys of a mapping are distinct, and are the keys it binds. *)
Lemma dict_keys_NoDup {V} (d : gmap string V) : NoDup (dict_keys d).
Proof. apply NoDup_fst_map_to_list. Qed.

Lemma elem_of_dict_keys {V} (d : gmap string V) k :
  k ∈ dict_keys d <-> is_Some (d !! k).
Proof.
  unfold dict_keys. rewrite list_elem_of_fmap. split.
  - intros [[k' v] [-> Hin]]. apply elem_of_map_to_list in Hin. eauto.
  - intros [v Hv]. exists (k, v). split; [reflexivity|].
    apply elem_of_map_to_list, Hv.
Qed.

(** The loop that drops the unsupported parameters: run over distinct keys
    that the mapping binds, no deletion fails, and what is left of every
    visited key is decided by [keep]. *)
Lemma for_each_drop {V} (keep : string -> bool) (l : list string)
    (d : gmap string V) :
  NoDup l -> (forall k, k ∈ l -> is_Some (d !! k)) ->
  exists d',
    for_each l (fun k => if keep k then mret tt else delitem k) d = (d', Ok tt) /\
    forall k, d' !! k = if bool_decide (k ∈ l) && negb (keep k) then None else d !! k.
Proof.
  revert d. induction l as [|x l IH]; intros d Hnd Hin.
  - exists d. split; [reflexivity|]. intros k.
    rewrite bool_decide_eq_false_2; [reflexivity|]. apply not_elem_of_nil.
  - apply NoDup_cons in Hnd as [Hx Hnd].
    cbn [for_each]. unfold mbind, M_bind.
    destruct (keep x) eqn:Hk.
    + destruct (IH d Hnd) as (d' & Hrun & Hd').
      { intros k Hkl. apply Hin. right. exact Hkl. }
      exists d'. split; [exact Hrun|]. intros k. rewrite Hd'.
      destruct (decide (k = x)) as [->|Hne].
      * rewrite Hk, !andb_false_r. reflexivity.
      * rewrite (bool_decide_ext (k ∈ x :: l) (k ∈ l)); [reflexivity|].
        rewrite elem_of_cons. tauto.
    + destruct (Hin x) as [v Hv]; [left|].
      unfold delitem. rewrite Hv.
      destruct (IH (delete x d) Hnd) as (d' & Hrun & Hd').
      { intros k Hkl. rewrite lookup_delete_ne; [apply Hin; right; exact Hkl|].
        intros ->. contradiction. }
      exists d'. split; [exact Hrun|]. intros k. rewrite Hd'.
      destruct (decide (k = x)) as [->|Hne].
      * rewrite Hk, lookup_delete_eq.
        rewrite (bool_decide_eq_true_2 (x ∈ x :: l)); [|left].
        destruct (bool_decide (x ∈ l)); reflexivity.
      * rewrite lookup_delete_ne by congruence.
        rewrite (bool_decide_ext (k ∈ x :: l) (k ∈ l)); [reflexivity|].
        rewrite elem_of_cons. tauto.
Qed.

(** What [tune_prompt_parameters] leaves, from what the parent's step
    left: the penalty renamed, then the entries of the allowed keys. *)
Lemma tune_prompt_parameters_run a kind (d d1 : gmap string pval) :
  base_tune_prompt_parameters a kind d = (d1, Ok tt) ->
  exists d',
    tune_prompt_parameters a kind d = (d', Ok tt) /\
    forall k,
      d' !! k =
        if list_in k allowed_params
        then match d1 !! "repetition_penalty" with
             | Some v => <["presence_penalty" := v]> (delete "repetition_penalty" d1) !! k
             | None => d1 !! k
             end
        else None.
Proof.
  intros Hbase. unfold tune_prompt_parameters, mbind, M_bind. rewrite Hbase.
  cbn [get]. unfold dict_in, dict_pop, setitem, modify.
  destruct (d1 !! "repetition_penalty") as [v|] eqn:Hrep.
  - rewrite bool_decide_eq_true_2 by eauto. rewrite Hrep. cbv beta iota.
    set (d2 := <["presence_penalty" := v]> (delete "repetition_penalty" d1)).
    destruct (for_each_drop (fun k => list_in k allowed_params) (dict_keys d2) d2)
      as (d' & Hrun & Hd').
    { apply dict_keys_NoDup. }
    { intros k. apply elem_of_dict_keys. }
    exists d'. split; [exact Hrun|]. intros k. rewrite Hd'.
    destruct (list_in k allowed_params); [rewrite andb_false_r; reflexivity|].
    rewrite andb_true_r. case_bool_decide as Hk; [reflexivity|].
    destruct (d2 !! k) eqn:Hl; [|reflexivity].
    exfalso. apply Hk, elem_of_dict_keys. eauto.
  - rewrite bool_decide_eq_false_2 by (intros [? ?]; congruence).
    destruct (for_each_drop (fun k => list_in k allowed_params) (dict_keys d1) d1)
      as (d' & Hrun & Hd').
    { apply dict_keys_NoDup. }
    { intros k. apply elem_of_dict_keys. }
    exists d'. split; [exact Hrun|]. intros k. rewrite Hd'.
    destruct (list_in k allowed_params); [rewrite andb_false_r; reflexivity|].
    rewrite andb_true_r. case_bool_decide as Hk; [reflexivity|].
    destruct (d1 !! k) eqn:Hl; [|reflexivity].
    exfalso. apply Hk, elem_of_dict_keys. eauto.
Qed.

(** An exception of the parent's step is the exception of the method, and
    the adapter's own steps do not run. *)
Lemma tune_prompt_parameters_raise a kind (d d1 : gmap string pval) e :
  base_tune_prompt_parameters a kind d = (d1, Raise e) ->
  tune_prompt_parameters a kind d = (d1, Raise e).
Proof.
  intros Hbase. unfold tune_prompt_parameters, mbind, M_bind.
  rewrite Hbase. reflexivity.
Qed.

(** C4. Whenever the parent's tuning step returns, so does
    [tune_prompt_parameters], and every key the mapping then binds is one
    of [max_tokens], [presence_penalty], [top_p], [temperature], whatever
    the parent's step had put into the mapping. *)
Theorem tune_prompt_parameters_allowed a kind (d d1 : gmap string pval) :
  base_tune_prompt_parameters a kind d = (d1, Ok tt) ->
  exists d',
    tune_prompt_parameters a kind d = (d', Ok tt) /\
    forall k, is_Some (d' !! k) -> k ∈ allowed_params.
Proof.
  intros Hbase.
  destruct (tune_prompt_parameters_run a kind d d1 Hbase) as (d' & Hrun & Hd').
  exists d'. split; [exact Hrun|]. intros k [v Hv]. rewrite Hd' in Hv.
  unfold list_in in Hv. case_bool_decide as Hk; [exact Hk|discriminate].
Qed.


End Tuning.

(** C4 on a mapping with an unsupported key, the parent's step adding one
    more. *)
Lemma tune_prompt_parameters_allowed_witness :
  exists d',
    @tune_prompt_parameters binary64 (stub_base binary64) (self plain_world) "conversation"
      {[ "temperature" := PInt 1; "top_k" := PInt 40 ]} = (d', Ok tt) /\
    forall k, is_Some (d' !! k) -> k ∈ allowed_params.
Proof.
  exact (@tune_prompt_parameters_allowed binary64 (stub_base binary64)
           (self plain_world) "conversation"
           {[ "temperature" := PInt 1; "top_k" := PInt 40 ]}
           (<["stream" := PBool false]> {[ "temperature" := PInt 1; "top_k" := PInt 40 ]})
           eq_refl).
Defined.



(** ** Construction and reconfiguration *)

Section Reconfigure.

Context `{Builtins}.

(** [set_client] as one assignment. *)
Lemma set_client_run kwargs w :
  set_client kwargs w =
    (let key := dict_get_default kwargs "api_key" (api_key (self w)) in
     {| self :=
          {| model_name :=
               py_or (py_or (dict_get kwargs "model") (dict_get kwargs "model_name"))
                 (model_name (self w));
             api_key := key;
             api_url := api_url (self w);
             max_token_length := max_token_length (self w);
             api_handles_prompt_template :=
               dict_get_default kwargs "api_handles_prompt_template"
                 (api_handles_prompt_template (self w));
             client := {| handle_id := fresh w;
                          base_url := api_url (self w);
                          handle_api_key := key |} |};
        fresh := S (fresh w) |}, Ok tt).
Proof. reflexivity. Qed.

(** [reconfigure] when the conversion of [max_token_length] succeeds. *)
Lemma reconfigure_run kwargs w n :
  token_length_after kwargs (max_token_length (self w)) = Ok n ->
  reconfigure kwargs w =
    (let key := dict_get_default kwargs "api_key" (api_key (self w)) in
     let url := dict_get_default kwargs "api_url" (api_url (self w)) in
     {| self :=
          {| model_name :=
               py_or (py_or (dict_get kwargs "model") (dict_get kwargs "model_name"))
                 (model_name (self w));
             api_key := key;
             api_url := url;
             max_token_length := n;
             api_handles_prompt_template :=
               dict_get_default kwargs "api_handles_prompt_template"
                 (api_handles_prompt_template (self w));
             client := {| handle_id := fresh w;
                          base_url := url;
                          handle_api_key := key |} |};
        fresh := S (fresh w) |}, Ok tt).
Proof.
  unfold token_length_after, reconfigure, set_client, dict_in, getitem,
    dict_get, dict_get_default, py_or.
  unfold mbind, M_bind, mret, M_ret, lift, get, AsyncOpenAI, set_model_name,
    set_api_key, set_api_url, set_max_token_length,
    set_api_handles_prompt_template, set_client_attr, modify.
  destruct (kwargs !! "model") as [m|];
    destruct (kwargs !! "model_name") as [mn|];
    destruct (kwargs !! "api_url") as [u|];
    destruct (kwargs !! "api_key") as [k|];
    destruct (kwargs !! "api_handles_prompt_template") as [f|];
    destruct (kwargs !! "max_token_length") as [t|];
    cbn; intros Hn;
    repeat match goal with
           | |- context [truthy ?v] => destruct (truthy v) eqn:?; cbn
           end;
    try rewrite Hn; cbn; try congruence; try reflexivity.
Qed.

(** [reconfigure] when the conversion raises: the exception propagates,
    after the assignments before it and without a new client. *)
Lemma reconfigure_raise kwargs w e :
  token_length_after kwargs (max_token_length (self w)) = Raise e ->
  reconfigure kwargs w =
    ({| self :=
          {| model_name := model_name_first kwargs (model_name (self w));
             api_key := api_key (self w);
             api_url := dict_get_default kwargs "api_url" (api_url (self w));
             max_token_length := max_token_length (self w);
             api_handles_prompt_template := api_handles_prompt_template (self w);
             client := client (self w) |};
        fresh := fresh w |}, Raise e).
Proof.
  destruct w as [[] ?].
  unfold token_length_after, model_name_first, reconfigure, set_client,
    dict_in, getitem, dict_get, dict_get_default, py_or.
  unfold mbind, M_bind, mret, M_ret, lift, get, AsyncOpenAI, set_model_name,
    set_api_key, set_api_url, set_max_token_length,
    set_api_handles_prompt_template, set_client_attr, modify.
  destruct (kwargs !! "model") as [m|];
    destruct (kwargs !! "api_url") as [u|];
    destruct (kwargs !! "max_token_length") as [t|];
    cbn; intros Hn;
    repeat match goal with
           | |- context [truthy ?v] => destruct (truthy v) eqn:?; cbn
           end;
    try rewrite Hn; cbn; try congruence; try reflexivity.
Qed.

(** A key outside the recognized ones changes nothing. *)
Lemma reconfigure_ignores k v kwargs w :
  k ∉ recognized_keys ->
  reconfigure (<[k := v]> kwargs) w = reconfigure kwargs w.
Proof.
  intros Hk.
  assert (forall k', k' ∈ recognized_keys -> <[k := v]> kwargs !! k' = kwargs !! k')
    as Hl.
  { intros k' Hk'. apply lookup_insert_ne. intros ->. contradiction. }
  unfold reconfigure, set_client, dict_in, getitem, dict_get, dict_get_default.
  rewrite !Hl by (unfold recognized_keys; set_solver).
  reflexivity.
Qed.

End Reconfigure.

(** C2, as amended. When the conversion of [max_token_length] succeeds,
    [reconfigure] returns, and: [api_url], [api_key] and
    [api_handles_prompt_template] are overwritten with the given value
    when their key is present and kept otherwise; [max_token_length],
    when present, becomes [int] of a truthy value and 8192 for a falsy
    one; [model_name] becomes the value of [model] if that is truthy,
    else the value of [model_name] if that is truthy, else stays; the
    client is a new handle built from the resulting URL and key; and any
    other key is ignored. *)
Theorem reconfigure_overwrites `{Builtins} kwargs w n :
  token_length_after kwargs (max_token_length (self w)) = Ok n ->
  exists w',
    reconfigure kwargs w = (w', Ok tt) /\
    api_url (self w') = dict_get_default kwargs "api_url" (api_url (self w)) /\
    api_key (self w') = dict_get_default kwargs "api_key" (api_key (self w)) /\
    api_handles_prompt_template (self w') =
      dict_get_default kwargs "api_handles_prompt_template"
        (api_handles_prompt_template (self w)) /\
    max_token_length (self w') = n /\
    model_name (self w') =
      py_or (py_or (dict_get kwargs "model") (dict_get kwargs "model_name"))
        (model_name (self w)) /\
    client (self w') =
      {| handle_id := fresh w;
         base_url := api_url (self w');
         handle_api_key := api_key (self w') |} /\
    (handle_id (client (self w)) < fresh w -> client (self w') <> client (self w)) /\
    (forall k v, k ∉ recognized_keys ->
       reconfigure (<[k := v]> kwargs) w = reconfigure kwargs w).
Proof.
  intros Hn. eexists. split; [apply (reconfigure_run kwargs w n Hn)|].
  cbn. repeat split.
  - intros Hlt Heq. rewrite <- Heq in Hlt. cbn in Hlt. lia.
  - intros k v Hk. apply reconfigure_ignores, Hk.
Qed.

(** C2 on a call that gives a key, a token length and a key the adapter
    does not know. *)
Lemma reconfigure_overwrites_witness :
  exists w',
    @reconfigure stub_builtins
      {[ "api_key" := CStr "secret"; "max_token_length" := CInt 4096;
         "theme" := CStr "dark" ]} handled_world = (w', Ok tt) /\
    api_key (self w') = CStr "secret" /\
    max_token_length (self w') = CInt 4096 /\
    client (self w') =
      {| handle_id := 1; base_url := CStr "http://localhost:5000";
         handle_api_key := CStr "secret" |}.
Proof.
  assert (@token_length_after stub_builtins
            {[ "api_key" := CStr "secret"; "max_token_length" := CInt 4096;
               "theme" := CStr "dark" ]}
            (max_token_length (self handled_world)) = Ok (CInt 4096)) as Hn
    by reflexivity.
  destruct (@reconfigure_overwrites stub_builtins _ handled_world _ Hn)
    as (w' & Hrun & Hurl & Hkey & _ & Hlen & _ & Hclient & _).
  exists w'. split; [exact Hrun|]. split; [exact Hkey|]. split; [exact Hlen|].
  rewrite Hclient, Hurl, Hkey. reflexivity.
Defined.

(** C2 as stated fails in three ways: a present [max_token_length] of 0
    stores 8192 and not the given value; a present but empty [model]
    does not overwrite the stored name; and [model_name], which is not
    one of the five keys, is not ignored. *)
Lemma reconfigure_not_plain_overwrite :
  max_token_length
    (self (@reconfigure stub_builtins {[ "max_token_length" := CInt 4096 ]}
             handled_world).1) = CInt 4096 /\
  max_token_length
    (self (@reconfigure stub_builtins {[ "max_token_length" := CInt 0 ]}
             (@reconfigure stub_builtins {[ "max_token_length" := CInt 4096 ]}
                handled_world).1).1) = CInt 8192 /\
  model_name (self handled_world) = CStr "m" /\
  model_name
    (self (@reconfigure stub_builtins {[ "model" := CStr "" ]} handled_world).1)
    = CStr "m" /\
  model_name
    (self (@reconfigure stub_builtins {[ "model_name" := CStr "other" ]}
             handled_world).1) = CStr "other".
Proof. repeat split. Qed.

(** ** The capability flag *)

(** C7. In every reachable state [can_be_coerced] is the negation of the
    truth value of the stored [api_handles_prompt_template], hence of the
    flag itself when it is a boolean; and after a reconfiguration that
    gives the flag, it is the negation of the given value. *)
Theorem can_be_coerced_negates_flag `{Arith} `{!ClientBase} `{!Builtins} w :
  reachable w ->
  can_be_coerced (self w) = negb (truthy (api_handles_prompt_template (self w))) /\
  (forall b, api_handles_prompt_template (self w) = CBool b ->
     can_be_coerced (self w) = negb b) /\
  (forall kwargs w' v,
     reconfigure kwargs w = (w', Ok tt) ->
     kwargs !! "api_handles_prompt_template" = Some v ->
     can_be_coerced (self w') = negb (truthy v)).
Proof.
  intros _. split; [reflexivity|]. split.
  - intros b Hb. unfold can_be_coerced. rewrite Hb. reflexivity.
  - intros kwargs w' v Hrun Hv.
    destruct (token_length_after kwargs (max_token_length (self w))) as [n|e] eqn:Hn.
    + rewrite (reconfigure_run kwargs w n Hn) in Hrun.
      injection Hrun as <-. unfold can_be_coerced, dict_get_default. cbn.
      rewrite Hv. reflexivity.
    + rewrite (reconfigure_raise kwargs w e Hn) in Hrun. discriminate.
Qed.

(** C7 on an adapter constructed with the flag set and reconfigured to
    clear it. *)
Lemma can_be_coerced_negates_flag_witness :
  can_be_coerced
    (self (@reconfigure stub_builtins
             {[ "api_handles_prompt_template" := CBool false ]} handled_world).1)
  = true.
Proof.
  assert (@reachable binary64 (stub_base binary64) stub_builtins
            (@reconfigure stub_builtins
               {[ "api_handles_prompt_template" := CBool false ]} handled_world).1)
    as Hreach.
  { apply (reachable_reconfigure handled_world
             {[ "api_handles_prompt_template" := CBool false ]} _ (Ok tt)).
    - apply (reachable_init (CStr "m") (CStr "k") (CBool true) ∅).
    - vm_compute. reflexivity. }
  destruct (can_be_coerced_negates_flag _ Hreach) as (_ & Hbool & _).
  exact (Hbool false eq_refl).
Defined.

(** ** Generation *)

Section Generate.

Context `{Arith} `{!Remote}.

(** [generate], by the outcome of the remote call. *)
Lemma generate_run a prompt kind g :
  generate a prompt kind g =
    match remote_outcome a prompt g with
    | Ok resp =>
        match choices resp with
        | c :: _ => (with_prompt prompt g, Ok (text c))
        | [] => (with_emission generic_emission (with_prompt prompt g), Ok "")
        end
    | Raise PermissionDeniedError =>
        (with_emission denied_emission (with_prompt prompt g), Ok "")
    | Raise _ =>
        (with_emission generic_emission (with_prompt prompt g), Ok "")
    end.
Proof.
  unfold remote_outcome, generate, try_except, call_create, set_parameter, emit,
    mbind, M_bind, mret, M_ret, lift, modify.
  cbn [fst snd]. fold (with_prompt prompt g).
  destruct (dict_in "model" (parameters (with_prompt prompt g))); [reflexivity|].
  destruct (completions_create _ _ _) as [[[|c rest]]|e]; cbn [choices first];
    [reflexivity|reflexivity|].
  destruct e; reflexivity.
Qed.

(** C3. [generate] returns for every input and every behaviour of the
    remote call: it raises nothing. When the call raises permission-denied
    it returns the empty string after exactly one emission, of status
    [error] and message [Client API: Permission Denied]; when the call
    raises anything else, the empty string after exactly one emission, of
    status [error] and the generic message; and a result other than the
    empty string is the text of the first choice of a call that
    succeeded, with no emission. *)
Theorem generate_never_raises a prompt kind g :
  (exists g' r, generate a prompt kind g = (g', Ok r)) /\
  (remote_outcome a prompt g = Raise PermissionDeniedError ->
     generate a prompt kind g =
       (with_emission denied_emission (with_prompt prompt g), Ok "")) /\
  (forall e, remote_outcome a prompt g = Raise e -> e <> PermissionDeniedError ->
     generate a prompt kind g =
       (with_emission generic_emission (with_prompt prompt g), Ok "")) /\
  (forall g' r, generate a prompt kind g = (g', Ok r) -> r <> "" ->
     exists resp c rest,
       remote_outcome a prompt g = Ok resp /\ choices resp = c :: rest /\
       r = text c /\ emitted g' = emitted g).
Proof.
  rewrite generate_run. repeat split.
  - destruct (remote_outcome a prompt g) as [[[|c rest]]|e]; cbn [choices];
      [eauto|eauto|destruct e; eauto].
  - intros ->. reflexivity.
  - intros e -> He. destruct e; congruence.
  - intros g' r Hrun Hr.
    destruct (remote_outcome a prompt g) as [[[|c rest]]|e]; cbn [choices] in Hrun.
    + injection Hrun as <- <-. congruence.
    + injection Hrun as <- <-. exists {| choices := c :: rest |}, c, rest.
      repeat split.
    + destruct e; injection Hrun as <- <-; congruence.
Qed.

(** C8. When the remote call succeeds with a response that has a first
    choice, [generate] returns the text of that choice as it is, makes no
    emission, and the only change of the mapping is the prompt. *)
Theorem generate_returns_first_choice a prompt kind g resp c rest :
  remote_outcome a prompt g = Ok resp ->
  choices resp = c :: rest ->
  generate a prompt kind g = (with_prompt prompt g, Ok (text c)).
Proof. intros Hr Hc. rewrite generate_run, Hr, Hc. reflexivity. Qed.

(** C9. Whatever the remote call does, the mapping [generate] leaves is
    the caller's mapping with [prompt] bound to the prompt as given, not
    trimmed: a failure does not undo the write. *)
Theorem generate_writes_prompt a prompt kind g :
  parameters (generate a prompt kind g).1 =
    <["prompt" := PStr prompt]> (parameters g) /\
  parameters (generate a prompt kind g).1 !! "prompt" = Some (PStr prompt) /\
  (forall e, remote_outcome a prompt g = Raise e ->
     parameters (generate a prompt kind g).1 !! "prompt" = Some (PStr prompt)).
Proof.
  assert (parameters (generate a prompt kind g).1 =
            <["prompt" := PStr prompt]> (parameters g)) as Hp.
  { rewrite generate_run.
    destruct (remote_outcome a prompt g) as [[[|c rest]]|e]; cbn [choices];
      [reflexivity|reflexivity|destruct e; reflexivity]. }
  rewrite Hp. repeat split; intros; apply lookup_insert_eq.
Qed.

End Generate.

(** C8 on a response whose first text has blanks at both ends. *)
Lemma generate_returns_first_choice_witness :
  @generate binary64
    (stub_remote binary64 (Ok {| choices := [ {| text := " Hi there " |};
                                           {| text := "second" |} ] |}))
    (self plain_world) " Say hi " "conversation"
    {| parameters := {[ "temperature" := PInt 1 ]}; emitted := [] |}
  = ({| parameters := {[ "prompt" := PStr " Say hi "; "temperature" := PInt 1 ]};
        emitted := [] |}, Ok " Hi there ").
Proof.
  exact (@generate_returns_first_choice binary64
           (stub_remote binary64 (Ok {| choices := [ {| text := " Hi there " |};
                                                  {| text := "second" |} ] |}))
           (self plain_world) " Say hi " "conversation"
           {| parameters := {[ "temperature" := PInt 1 ]}; emitted := [] |}
           _ {| text := " Hi there " |} [ {| text := "second" |} ]
           eq_refl eq_refl).
Defined.

(** A prompt with blanks at its ends is written as it is on the two
    failure paths, next to the one emission each of them makes. *)
Example generate_failure_paths :
  Str.strip " Say hi " = "Say hi" /\
  @generate binary64 (stub_remote binary64 (Raise PermissionDeniedError))
    (self plain_world) " Say hi " "conversation"
    {| parameters := ∅; emitted := [] |}
  = ({| parameters := {[ "prompt" := PStr " Say hi " ]};
        emitted := [denied_emission] |}, Ok "") /\
  @generate binary64 (stub_remote binary64 (Raise NotFoundError))
    (self plain_world) " Say hi " "conversation"
    {| parameters := ∅; emitted := [] |}
  = ({| parameters := {[ "prompt" := PStr " Say hi " ]};
        emitted := [generic_emission] |}, Ok "") /\
  @generate binary64 (stub_remote binary64 (Ok {| choices := [] |}))
    (self plain_world) " Say hi " "conversation"
    {| parameters := {[ "model" := PStr "m" ]}; emitted := [] |}
  = ({| parameters := {[ "prompt" := PStr " Say hi "; "model" := PStr "m" ]};
        emitted := [generic_emission] |}, Ok "").
Proof. repeat split. Qed.

(** ** Randomized jitter *)

Section Jiggle.

Context `{Arith}.

Lemma rep_pen_key_of_lookup (d : gmap string pval) :
  d !! rep_pen_key_of d = None <->
  d !! "frequency_penalty" = None /\ d !! "repetition_penalty" = None.
Proof.
  unfold rep_pen_key_of, dict_in. case_bool_decide as Hf.
  - destruct Hf as [v Hv]. rewrite Hv. split; [discriminate|intros [? _]; discriminate].
  - assert (d !! "frequency_penalty" = None) as Hn.
    { destruct (d !! "frequency_penalty") eqn:E; [|reflexivity]. exfalso. eauto. }
    rewrite Hn. tauto.
Qed.

(** Without [temperature] the first lookup raises, before any write. *)
Lemma jiggle_randomness_no_temperature offset u1 u2 (d : gmap string pval) :
  d !! "temperature" = None ->
  jiggle_randomness offset u1 u2 d = (d, Raise (KeyError "temperature")).
Proof.
  intros Ht. unfold jiggle_randomness, mbind, M_bind, get, lift, getitem.
  rewrite Ht. reflexivity.
Qed.

(** Without a repetition-control key the second lookup raises, before any
    write. *)
Lemma jiggle_randomness_no_penalty offset u1 u2 (d : gmap string pval) :
  is_Some (d !! "temperature") ->
  d !! rep_pen_key_of d = None ->
  jiggle_randomness offset u1 u2 d = (d, Raise (KeyError (rep_pen_key_of d))).
Proof.
  intros [t Ht] Hr. unfold jiggle_randomness, mbind, M_bind, get, lift, getitem.
  rewrite Ht. fold (rep_pen_key_of d). rewrite Hr. reflexivity.
Qed.

(** With both entries read, the rest of [jiggle_randomness]: the
    conversions may raise, the first two before any write, the last two
    after the temperature is written. *)
Lemma jiggle_randomness_run offset u1 u2 (d : gmap string pval) temp rep_pen :
  d !! "temperature" = Some temp ->
  d !! rep_pen_key_of d = Some rep_pen ->
  jiggle_randomness offset u1 u2 d =
    match as_float temp with
    | Raise e => (d, Raise e)
    | Ok t =>
        let min_offset := nmul offset lit_0_3 in
        let d1 := <["temperature" :=
                      PFloat (uniform (nadd t min_offset) (nadd t offset) u1)]> d in
        match as_float rep_pen with
        | Raise e => (d1, Raise e)
        | Ok p =>
            (<[rep_pen_key_of d :=
                 PFloat (uniform (nadd p (nmul min_offset lit_0_3))
                           (nadd p (nmul offset lit_0_3)) u2)]> d1, Ok tt)
        end
    end.
Proof.
  intros Ht Hr.
  unfold jiggle_randomness, mbind, M_bind, get, lift, getitem, setitem, modify,
    py_add.
  rewrite Ht. fold (rep_pen_key_of d). rewrite Hr.
  destruct (as_float temp) as [t|e]; [|reflexivity].
  destruct (as_float rep_pen) as [p|e]; reflexivity.
Qed.

(** C10. [jiggle_randomness] raises [KeyError] and leaves the mapping as
    it was when the mapping lacks [temperature], and when it has
    [temperature] but neither [frequency_penalty] nor
    [repetition_penalty]; a [KeyError] arises in no other case; it
    returns only for a mapping with [temperature] and one of the two
    keys, and it does return for such a mapping when the two entries are
    floats. *)
Theorem jiggle_randomness_partial offset u1 u2 (d : gmap string pval) :
  (d !! "temperature" = None ->
     jiggle_randomness offset u1 u2 d = (d, Raise (KeyError "temperature"))) /\
  (is_Some (d !! "temperature") ->
   d !! "frequency_penalty" = None -> d !! "repetition_penalty" = None ->
     jiggle_randomness offset u1 u2 d = (d, Raise (KeyError "repetition_penalty"))) /\
  (forall d' k, jiggle_randomness offset u1 u2 d = (d', Raise (KeyError k)) ->
     d' = d /\
     (d !! "temperature" = None \/
      (d !! "frequency_penalty" = None /\ d !! "repetition_penalty" = None))) /\
  (forall d', jiggle_randomness offset u1 u2 d = (d', Ok tt) ->
     is_Some (d !! "temperature") /\
     (is_Some (d !! "frequency_penalty") \/ is_Some (d !! "repetition_penalty"))) /\
  (forall t p, d !! "temperature" = Some (PFloat t) ->
     d !! rep_pen_key_of d = Some (PFloat p) ->
     exists d', jiggle_randomness offset u1 u2 d = (d', Ok tt)).
Proof.
  split; [apply jiggle_randomness_no_temperature|]. split.
  { intros Ht Hf Hr.
    rewrite jiggle_randomness_no_penalty;
      [|exact Ht|apply rep_pen_key_of_lookup; tauto].
    unfold rep_pen_key_of, dict_in.
    rewrite bool_decide_eq_false_2; [reflexivity|].
    intros [? ?]; congruence. }
  assert (forall d' o, jiggle_randomness offset u1 u2 d = (d', o) ->
            match o with
            | Raise (KeyError _) =>
                d' = d /\
                (d !! "temperature" = None \/
                 (d !! "frequency_penalty" = None /\ d !! "repetition_penalty" = None))
            | Raise _ => True
            | Ok _ =>
                is_Some (d !! "temperature") /\
                (is_Some (d !! "frequency_penalty") \/
                 is_Some (d !! "repetition_penalty"))
            end) as Hall.
  { intros d' o Hrun.
    destruct (d !! "temperature") as [temp|] eqn:Ht.
    2:{ rewrite jiggle_randomness_no_temperature in Hrun by exact Ht.
        injection Hrun as <- <-. tauto. }
    destruct (d !! rep_pen_key_of d) as [rep_pen|] eqn:Hr.
    2:{ rewrite jiggle_randomness_no_penalty in Hrun by eauto.
        injection Hrun as <- <-. apply rep_pen_key_of_lookup in Hr. tauto. }
    rewrite (jiggle_randomness_run _ _ _ _ temp rep_pen Ht Hr) in Hrun.
    assert (is_Some (d !! "frequency_penalty") \/
            is_Some (d !! "repetition_penalty")) as Hkeys.
    { revert Hr. unfold rep_pen_key_of, dict_in. case_bool_decide; eauto. }
    destruct temp, rep_pen; cbn in Hrun;
      repeat match type of Hrun with
             | context [of_int ?z] => destruct (of_int z); cbn in Hrun
             end;
      injection Hrun as <- <-; eauto. }
  split; [|split].
  - intros d' k Hrun. apply (Hall d' (Raise (KeyError k)) Hrun).
  - intros d' Hrun. apply (Hall d' (Ok tt) Hrun).
  - intros t p Ht Hr.
    rewrite (jiggle_randomness_run _ _ _ _ _ _ Ht Hr). cbn. eauto.
Qed.

End Jiggle.

(** ** Binary64: rounding between two floats

    The operations of binary64 are specified by [SpecFloat] on mantissas
    and exponents, and the primitive floats are tied to that
    specification by the axioms of [FloatAxioms]. From the specification:
    rounding to nearest even returns the quotient of the shift or its
    successor, hence never crosses a float that bounds the number it
    rounds; so a product of a float [d] with a draw of [0, 1) is at most
    [d], and a sum lies between any two floats that bound it. *)

Module B64Facts.
Import B64.

Local Open Scope Z_scope.



Lemma fexp64 x : fexp prec emax x = Z.max (x - 53) (-1074).
Proof. reflexivity. Qed.

Lemma digits_pos m : 1 <= digits m.
Proof. unfold digits. lia. Qed.

Lemma digits_bounds m : 2 ^ (digits m - 1) <= Zpos m < 2 ^ digits m.
Proof.
  unfold digits. induction m as [m IH|m IH|]; cbn [digits2_pos].
  - rewrite Pos2Z.inj_succ. change (Zpos m~1) with (2 * Zpos m + 1).
    replace (Z.succ (Zpos (digits2_pos m)) - 1) with (Z.succ (Zpos (digits2_pos m) - 1)) by lia.
    rewrite !Z.pow_succ_r by lia.
    revert IH. generalize (2 ^ (Zpos (digits2_pos m) - 1)) (2 ^ Zpos (digits2_pos m)).
    intros; lia.
  - rewrite Pos2Z.inj_succ. change (Zpos m~0) with (2 * Zpos m).
    replace (Z.succ (Zpos (digits2_pos m)) - 1) with (Z.succ (Zpos (digits2_pos m) - 1)) by lia.
    rewrite !Z.pow_succ_r by lia.
    revert IH. generalize (2 ^ (Zpos (digits2_pos m) - 1)) (2 ^ Zpos (digits2_pos m)).
    intros; lia.
  - cbn. lia.
Qed.

Lemma pow2_pos k : 0 < 2 ^ k \/ k < 0.
Proof. destruct (Z.le_gt_cases 0 k); [left; apply Z.pow_pos_nonneg; lia|right; lia]. Qed.

Lemma pow2_lt a b : 0 <= a -> a < b -> 2 ^ a < 2 ^ b.
Proof. intros. apply Z.pow_lt_mono_r; lia. Qed.

Lemma pow2_le a b : 0 <= a -> a <= b -> 2 ^ a <= 2 ^ b.
Proof. intros. apply Z.pow_le_mono_r; lia. Qed.

Lemma digits_unique m k : 2 ^ (k - 1) <= Zpos m < 2 ^ k -> digits m = k.
Proof.
  intros [Hl Hu]. pose proof (digits_bounds m) as [Hl' Hu'].
  pose proof (digits_pos m).
  assert (1 <= k).
  { destruct (Z.le_gt_cases 1 k); [assumption|].
    assert (k <= 0) by lia. destruct (Z.eq_dec k 0) as [->|]; [cbn in Hu; lia|].
    rewrite Z.pow_neg_r in Hu by lia. lia. }
  destruct (Z.lt_trichotomy (digits m) k) as [Hlt|[Heq|Hgt]]; [|assumption|].
  - assert (2 ^ digits m <= 2 ^ (k - 1)) by (apply pow2_le; lia). lia.
  - assert (2 ^ k <= 2 ^ (digits m - 1)) by (apply pow2_le; lia). lia.
Qed.

Lemma pow2_split a b c : c <= a -> a <= b -> 2 ^ (b - c) = 2 ^ (b - a) * 2 ^ (a - c).
Proof. intros. rewrite <- Z.pow_add_r by lia. f_equal. lia. Qed.

Lemma canonical_iff m e :
  canonical_mantissa prec emax m e = true <->
  Z.max (digits m + e - 53) (-1074) = e.
Proof. unfold canonical_mantissa. rewrite Z.eqb_eq, fexp64. unfold digits. reflexivity. Qed.

(** *** Shifting right *)

Lemma div_mod_pow2_succ M j :
  0 <= M -> 0 <= j ->
  M / 2 ^ (j + 1) = (M / 2 ^ j) / 2 /\
  (M mod 2 ^ (j + 1) = 0 -> M mod 2 ^ j = 0 /\ (M / 2 ^ j) mod 2 = 0).
Proof.
  intros HM Hj. assert (0 < 2 ^ j) by (apply Z.pow_pos_nonneg; lia).
  rewrite Z.pow_add_r, Z.pow_1_r by lia. split.
  - rewrite Z.div_div by lia. reflexivity.
  - rewrite Z.rem_mul_r by lia. intros H0.
    pose proof (Z.mod_pos_bound M (2 ^ j) ltac:(lia)).
    pose proof (Z.mod_pos_bound (M / 2 ^ j) 2 ltac:(lia)).
    nia.
Qed.

Lemma shr_1_inv M j r :
  0 <= M -> 0 <= j -> shr_inv M j r -> shr_inv M (j + 1) (shr_1 r).
Proof.
  intros HM Hj [Hm Hf]. destruct (div_mod_pow2_succ M j HM Hj) as [Hd Hz].
  assert (0 <= M / 2 ^ j) by (apply Z.div_pos; [lia|apply Z.pow_pos_nonneg; lia]).
  destruct r as [m rr ss]. cbn [shr_m shr_r shr_s] in *. subst m.
  unfold shr_inv. rewrite Hd.
  destruct (M / 2 ^ j) as [|[p|p|]|p] eqn:Hq; cbn [shr_1 shr_m shr_r shr_s].
  - split; [reflexivity|]. intros H0. destruct (Hz H0) as [H1 _].
    destruct (Hf H1) as [-> ->]. split; reflexivity.
  - split; [change (Zpos p~1) with (2 * Zpos p + 1); apply Z.div_unique with 1; lia|].
    intros H0. destruct (Hz H0) as [_ H2].
    change (Zpos p~1) with (2 * Zpos p + 1) in H2.
    replace (2 * Zpos p + 1) with (1 + Zpos p * 2) in H2 by lia.
    rewrite Z.mod_add in H2 by lia. discriminate.
  - split; [change (Zpos p~0) with (2 * Zpos p); apply Z.div_unique with 0; lia|].
    intros H0. destruct (Hz H0) as [H1 _].
    destruct (Hf H1) as [-> ->]. split; reflexivity.
  - split; [reflexivity|]. intros H0. destruct (Hz H0) as [_ H2]. discriminate.
  - lia.
Qed.

Lemma iter_shr_inv p : forall M j r,
  0 <= M -> 0 <= j -> shr_inv M j r ->
  shr_inv M (j + Zpos p) (SpecFloat.iter_pos shr_1 p r).
Proof.
  induction p as [p IH|p IH|]; intros M j r HM Hj Hr; cbn [SpecFloat.iter_pos].
  - replace (j + Zpos p~1) with (((j + 1) + Zpos p) + Zpos p) by lia.
    apply IH; [lia|lia|]. apply IH; [lia|lia|]. apply shr_1_inv; assumption.
  - replace (j + Zpos p~0) with ((j + Zpos p) + Zpos p) by lia.
    apply IH; [lia|lia|]. apply IH; assumption.
  - apply shr_1_inv; assumption.
Qed.

Lemma shr_spec M E n :
  0 <= M -> 0 <= n ->
  exists r, shr (Build_shr_record M false false) E n = (r, E + n) /\ shr_inv M n r.
Proof.
  intros HM Hn. destruct n as [|p|p]; [| |lia].
  - exists (Build_shr_record M false false). split.
    + cbn. rewrite Z.add_0_r. reflexivity.
    + split; [cbn; rewrite Z.div_1_r; reflexivity|]. intros _. split; reflexivity.
  - eexists. split; [reflexivity|].
    replace (Zpos p) with (0 + Zpos p) by lia.
    apply iter_shr_inv; [lia|lia|].
    split; [cbn; rewrite Z.div_1_r; reflexivity|]. intros _. split; reflexivity.
Qed.

Lemma rne_bounds r :
  let m1 := round_nearest_even (shr_m r) (loc_of_shr_record r) in
  shr_m r <= m1 <= shr_m r + 1 /\
  (shr_r r = false /\ shr_s r = false -> m1 = shr_m r).
Proof.
  destruct r as [x [|] [|]]; cbn; try destruct (Z.even x); split; try lia;
    intros [? ?]; try discriminate; reflexivity.
Qed.

(** *** Rounding *)

Lemma div_pow2_upper M k d : 0 <= k <= d -> M < 2 ^ d -> M / 2 ^ k < 2 ^ (d - k).
Proof.
  intros Hk HM. assert (0 < 2 ^ k) by (apply Z.pow_pos_nonneg; lia).
  apply Z.div_lt_upper_bound; [lia|].
  rewrite <- Z.pow_add_r by lia. replace (k + (d - k)) with d by lia. exact HM.
Qed.

Lemma div_pow2_small M k d : 0 <= d <= k -> 0 <= M < 2 ^ d -> M / 2 ^ k = 0.
Proof.
  intros Hk HM. apply Z.div_small. split; [lia|].
  assert (2 ^ d <= 2 ^ k) by (apply pow2_le; lia). lia.
Qed.

Lemma div_pow2_lower M k d : 0 <= k <= d - 1 -> 2 ^ (d - 1) <= M -> 2 ^ (d - 1 - k) <= M / 2 ^ k.
Proof.
  intros Hk HM. assert (0 < 2 ^ k) by (apply Z.pow_pos_nonneg; lia).
  apply Z.div_le_lower_bound; [lia|].
  rewrite <- Z.pow_add_r by lia. replace (k + (d - 1 - k)) with (d - 1) by lia. exact HM.
Qed.

Abbreviation bra := (binary_round_aux prec emax).
Abbreviation canonical := (canonical_mantissa prec emax).

Lemma bra_spec M E :
  E <= fexp prec emax (digits M + E) ->
  exists m1,
    Zpos M / 2 ^ (fexp prec emax (digits M + E) - E) <= m1
      <= Zpos M / 2 ^ (fexp prec emax (digits M + E) - E) + 1 /\
    (Zpos M mod 2 ^ (fexp prec emax (digits M + E) - E) = 0 ->
       m1 = Zpos M / 2 ^ (fexp prec emax (digits M + E) - E)) /\
    ((m1 = 0 /\ bra false (Zpos M) E loc_Exact = S754_zero false) \/
     (exists m2 e2,
        canonical m2 e2 = true /\
        fexp prec emax (digits M + E) <= e2 /\
        Zpos m2 * 2 ^ (e2 - fexp prec emax (digits M + E)) = m1 /\
        bra false (Zpos M) E loc_Exact =
          if e2 <=? 971 then S754_finite false m2 e2 else S754_infinity false)).
Proof.
  intros Hn. set (e1 := fexp prec emax (digits M + E)) in *.
  assert (He1 : e1 = Z.max (digits M + E - 53) (-1074)) by (unfold e1; apply fexp64).
  pose proof (digits_bounds M) as [HMl HMu]. pose proof (digits_pos M) as HdM.
  destruct (shr_spec (Zpos M) E (e1 - E) ltac:(lia) ltac:(lia)) as (r & Hshr & Hm & Hf).
  replace (E + (e1 - E)) with e1 in Hshr by lia.
  pose proof (rne_bounds r) as Hrne. cbv zeta in Hrne.
  set (m1 := round_nearest_even (shr_m r) (loc_of_shr_record r)) in *.
  destruct Hrne as [Hb Hex]. rewrite Hm in Hb.
  set (q := Zpos M / 2 ^ (e1 - E)) in *.
  assert (Hq0 : 0 <= q).
  { apply Z.div_pos; [lia|apply Z.pow_pos_nonneg; lia]. }
  assert (Hq53 : q < 2 ^ 53).
  { destruct (Z.le_gt_cases (e1 - E) (digits M)) as [Hle|Hgt].
    - assert (q < 2 ^ (digits M - (e1 - E))) by (apply div_pow2_upper; lia).
      assert (2 ^ (digits M - (e1 - E)) <= 2 ^ 53) by (apply pow2_le; lia). lia.
    - assert (q = 0) by (apply (div_pow2_small _ _ (digits M)); lia).
      assert (0 < 2 ^ 53) by (apply Z.pow_pos_nonneg; lia). lia. }
  assert (Hq52 : -1074 < e1 -> 2 ^ 52 <= q).
  { intros Hnorm. assert (e1 - E = digits M - 53) as Hk by lia.
    replace 52 with (digits M - 1 - (e1 - E)) by lia.
    apply div_pow2_lower; lia. }
  exists m1. split; [exact Hb|]. split.
  { intros H0. rewrite Hex; [exact Hm|]. apply Hf, H0. }
  assert (Hbra : bra false (Zpos M) E loc_Exact =
            let '(mrs'', e'') := shr_fexp prec emax m1 e1 loc_Exact in
            match shr_m mrs'' with
            | Z0 => S754_zero false
            | Zpos m => if Z.leb e'' 971 then S754_finite false m e'' else S754_infinity false
            | Zneg _ => S754_nan
            end).
  { unfold binary_round_aux, shr_fexp at 1.
    change (Zdigits2 (Zpos M)) with (digits M). fold e1.
    change (shr_record_of_loc (Zpos M) loc_Exact) with (Build_shr_record (Zpos M) false false).
    rewrite Hshr. reflexivity. }
  rewrite Hbra. clear Hbra. unfold shr_fexp.
  change (shr_record_of_loc m1 loc_Exact) with (Build_shr_record m1 false false).
  rewrite fexp64.
  destruct m1 as [|pm|pm] eqn:Hm1; [| |lia].
  - left. split; [reflexivity|]. cbn [Zdigits2].
    destruct (Z.max (0 + e1 - 53) (-1074) - e1) eqn:Hn2; try lia; reflexivity.
  - right. change (Zdigits2 (Zpos pm)) with (digits pm).
    pose proof (digits_bounds pm) as [Hpl Hpu]. pose proof (digits_pos pm) as Hdp.
    destruct (Z.eq_dec (Zpos pm) (2 ^ 53)) as [H53|H53].
    + assert (digits pm = 54) as Hd by (apply digits_unique; rewrite H53; cbn; lia).
      rewrite Hd. replace (Z.max (54 + e1 - 53) (-1074) - e1) with 1 by lia.
      cbn [shr SpecFloat.iter_pos]. change (2 ^ 53) with (Zpos 9007199254740992) in H53.
      injection H53 as ->. cbn [shr_1 shr_m].
      exists 4503599627370496%positive, (e1 + 1). split; [|split; [lia|split]].
      * apply canonical_iff.
        assert (digits 4503599627370496 = 53) as -> by reflexivity. lia.
      * replace (e1 + 1 - e1) with 1 by lia. reflexivity.
      * reflexivity.
    + assert (Zpos pm < 2 ^ 53) by lia.
      assert (digits pm <= 53).
      { destruct (Z.le_gt_cases (digits pm) 53); [assumption|].
        assert (2 ^ 53 <= 2 ^ (digits pm - 1)) by (apply pow2_le; lia). lia. }
      assert (-1074 < e1 -> 53 <= digits pm).
      { intros Hnorm. specialize (Hq52 Hnorm).
        destruct (Z.le_gt_cases 53 (digits pm)); [assumption|].
        assert (2 ^ digits pm <= 2 ^ 52) by (apply pow2_le; lia). lia. }
      replace (Z.max (digits pm + e1 - 53) (-1074) - e1) with 0 by lia.
      cbn [shr shr_m].
      exists pm, e1. split; [|split; [lia|split]].
      * apply canonical_iff. lia.
      * rewrite Z.sub_diag. cbn. lia.
      * reflexivity.
Qed.

(** *** Order of canonical floats *)

Lemma canonical_facts m e :
  canonical m e = true ->
  digits m <= 53 /\ -1074 <= e /\ (digits m = 53 \/ e = -1074).
Proof. intros H. apply canonical_iff in H. lia. Qed.

Lemma val_shift m e1 e2 :
  base <= e1 -> e1 <= e2 -> val (m * 2 ^ (e2 - e1)) e1 = val m e2.
Proof.
  intros H1 H2. unfold val. rewrite (pow2_split e1 e2 base) by lia. ring.
Qed.

Lemma val_pos m e : 0 < m -> base <= e -> 0 < val m e.
Proof.
  intros Hm He. unfold val.
  assert (0 < 2 ^ (e - base)) by (apply Z.pow_pos_nonneg; lia). nia.
Qed.

Lemma val_le_inv m1 m2 e : base <= e -> val m1 e <= val m2 e -> m1 <= m2.
Proof.
  intros He. unfold val.
  assert (0 < 2 ^ (e - base)) by (apply Z.pow_pos_nonneg; lia). nia.
Qed.

Lemma val_le m1 m2 e : base <= e -> m1 <= m2 -> val m1 e <= val m2 e.
Proof.
  intros He. unfold val.
  assert (0 < 2 ^ (e - base)) by (apply Z.pow_pos_nonneg; lia). nia.
Qed.

(** A positive number with [d] digits at exponent [e] lies between
    [2^(d+e-1)] and [2^(d+e)]. *)
Lemma val_digits m e :
  base <= e -> val (2 ^ (digits m - 1)) e <= val (Zpos m) e < val (2 ^ digits m) e.
Proof.
  intros He. pose proof (digits_bounds m). unfold val.
  assert (0 < 2 ^ (e - base)) by (apply Z.pow_pos_nonneg; lia). nia.
Qed.

Lemma val_pow k e : 0 <= k -> base <= e -> val (2 ^ k) e = 2 ^ (k + e - base).
Proof.
  intros. unfold val. rewrite <- Z.pow_add_r by lia. f_equal. lia.
Qed.

(** Below a number with larger [digits + exponent]. *)
Lemma val_lt_digits m1 e1 m2 e2 :
  base <= e1 -> base <= e2 ->
  digits m1 + e1 <= digits m2 + e2 - 1 ->
  val (Zpos m1) e1 < val (Zpos m2) e2.
Proof.
  intros H1 H2 Hd.
  pose proof (val_digits m1 e1 H1) as [_ Hu].
  pose proof (val_digits m2 e2 H2) as [Hl _].
  pose proof (digits_pos m1). pose proof (digits_pos m2).
  rewrite val_pow in Hu by lia. rewrite val_pow in Hl by lia.
  assert (2 ^ (digits m1 + e1 - base) <= 2 ^ (digits m2 - 1 + e2 - base))
    by (apply pow2_le; lia).
  lia.
Qed.

Lemma canonical_exp_lt m1 e1 m2 e2 :
  canonical m1 e1 = true -> canonical m2 e2 = true ->
  e1 < e2 -> val (Zpos m1) e1 < val (Zpos m2) e2.
Proof.
  intros H1 H2 He.
  apply canonical_facts in H1. apply canonical_facts in H2.
  apply val_lt_digits; unfold base; lia.
Qed.

Lemma SFcompare_canonical m1 e1 m2 e2 :
  canonical m1 e1 = true -> canonical m2 e2 = true ->
  SFcompare (S754_finite false m1 e1) (S754_finite false m2 e2)
  = Some (val (Zpos m1) e1 ?= val (Zpos m2) e2).
Proof.
  intros H1 H2. cbn [SFcompare]. f_equal.
  destruct (Z.compare_spec e1 e2) as [->|Hlt|Hgt].
  - unfold val. apply canonical_facts in H2.
    rewrite <- Zmult_compare_compat_r
      by (apply Z.lt_gt, Z.pow_pos_nonneg; unfold base; lia).
    reflexivity.
  - symmetry. apply Z.compare_lt_iff. apply canonical_exp_lt; assumption.
  - symmetry. apply Z.compare_gt_iff. apply canonical_exp_lt; assumption.
Qed.

Lemma SFleb_canonical m1 e1 m2 e2 :
  canonical m1 e1 = true -> canonical m2 e2 = true ->
  val (Zpos m1) e1 <= val (Zpos m2) e2 ->
  SFleb (S754_finite false m1 e1) (S754_finite false m2 e2) = true.
Proof.
  intros H1 H2 Hle. unfold SFleb. rewrite SFcompare_canonical by assumption.
  destruct (Z.compare_spec (val (Zpos m1) e1) (val (Zpos m2) e2)); [reflexivity|reflexivity|lia].
Qed.

Lemma SFltb_canonical_inv m1 e1 m2 e2 :
  canonical m1 e1 = true -> canonical m2 e2 = true ->
  SFltb (S754_finite false m1 e1) (S754_finite false m2 e2) = true ->
  val (Zpos m1) e1 < val (Zpos m2) e2.
Proof.
  intros H1 H2. unfold SFltb. rewrite SFcompare_canonical by assumption.
  destruct (Z.compare_spec (val (Zpos m1) e1) (val (Zpos m2) e2)); [discriminate|trivial|discriminate].
Qed.

(** *** Rounding does not cross a float *)

Lemma val_round_down M E e1 :
  base <= E -> E <= e1 ->
  val (Zpos M / 2 ^ (e1 - E)) e1 <= val (Zpos M) E.
Proof.
  intros HE HEe1. unfold val. rewrite (pow2_split E e1 base) by lia.
  assert (0 < 2 ^ (e1 - E)) by (apply Z.pow_pos_nonneg; lia).
  assert (0 < 2 ^ (E - base)) by (apply Z.pow_pos_nonneg; lia).
  pose proof (Z.mul_div_le (Zpos M) (2 ^ (e1 - E)) ltac:(lia)). nia.
Qed.

(** A float with a smaller exponent than the rounding exponent has fewer
    digits before the point than the number being rounded. *)
Lemma exp_below_normal M E e1 mF eF :
  e1 = Z.max (digits M + E - 53) (-1074) -> canonical mF eF = true ->
  eF < e1 -> digits mF + eF <= digits M + E - 1.
Proof. intros He1 HF Hlt. apply canonical_facts in HF. lia. Qed.

(** Rounding down stays above every float below the number. *)
Lemma sandwich_lower M E e1 mF eF :
  base <= E -> e1 = Z.max (digits M + E - 53) (-1074) -> E <= e1 ->
  canonical mF eF = true ->
  val (Zpos mF) eF <= val (Zpos M) E ->
  val (Zpos mF) eF <= val (Zpos M / 2 ^ (e1 - E)) e1.
Proof.
  intros HE He1 HEe1 HF Hle. pose proof (canonical_facts _ _ HF) as HcF.
  set (q := Zpos M / 2 ^ (e1 - E)).
  destruct (Z.le_gt_cases e1 eF) as [Hc|Hc].
  - rewrite <- (val_shift (Zpos mF) e1 eF) by lia.
    apply val_le; [lia|]. unfold q.
    assert (0 < 2 ^ (e1 - E)) by (apply Z.pow_pos_nonneg; lia).
    apply Z.div_le_lower_bound; [lia|].
    rewrite <- (val_shift (Zpos mF) e1 eF) in Hle by lia.
    rewrite <- (val_shift _ E e1) in Hle by lia.
    apply val_le_inv in Hle; [|lia]. lia.
  - pose proof (exp_below_normal M E e1 mF eF He1 HF Hc) as Hd.
    assert (e1 - E = digits M - 53) as Hk by lia.
    pose proof (digits_bounds M) as [HMl _]. pose proof (digits_pos M).
    pose proof (digits_pos mF).
    assert (2 ^ 52 <= q) as Hq.
    { unfold q. replace 52 with (digits M - 1 - (e1 - E)) by lia.
      apply div_pow2_lower; lia. }
    pose proof (val_digits mF eF ltac:(unfold base; lia)) as [_ Hu].
    rewrite val_pow in Hu by (unfold base; lia).
    assert (val (2 ^ 52) e1 <= val q e1) as Hv by (apply val_le; lia).
    rewrite val_pow in Hv by lia.
    assert (2 ^ (digits mF + eF - base) <= 2 ^ (52 + e1 - base))
      by (apply pow2_le; unfold base; lia).
    lia.
Qed.

(** Rounding up, and only when something was cut off, stays below every
    float above the number. *)
Lemma sandwich_upper M E e1 mF eF m1 :
  base <= E -> e1 = Z.max (digits M + E - 53) (-1074) -> E <= e1 ->
  canonical mF eF = true ->
  Zpos M / 2 ^ (e1 - E) <= m1 <= Zpos M / 2 ^ (e1 - E) + 1 ->
  (Zpos M mod 2 ^ (e1 - E) = 0 -> m1 = Zpos M / 2 ^ (e1 - E)) ->
  val (Zpos M) E <= val (Zpos mF) eF -> val m1 e1 <= val (Zpos mF) eF.
Proof.
  intros HE He1 HEe1 HF Hb Hex Hle. pose proof (canonical_facts _ _ HF) as HcF.
  set (q := Zpos M / 2 ^ (e1 - E)) in *.
  assert (0 < 2 ^ (e1 - E)) as HP by (apply Z.pow_pos_nonneg; lia).
  pose proof (Z.div_mod (Zpos M) (2 ^ (e1 - E)) ltac:(lia)) as Hdm.
  pose proof (Z.mod_pos_bound (Zpos M) (2 ^ (e1 - E)) HP) as Hrem.
  fold q in Hdm.
  destruct (Z.eq_dec (Zpos M mod 2 ^ (e1 - E)) 0) as [H0|H0].
  - rewrite (Hex H0). rewrite H0 in Hdm.
    assert (val q e1 = val (Zpos M) E) as ->; [|exact Hle].
    rewrite <- (val_shift q E e1) by lia. f_equal. lia.
  - destruct (Z.le_gt_cases e1 eF) as [Hc|Hc].
    + rewrite <- (val_shift (Zpos mF) e1 eF) by lia.
      apply val_le; [lia|].
      rewrite <- (val_shift (Zpos mF) e1 eF) in Hle by lia.
      rewrite <- (val_shift _ E e1) in Hle by lia.
      apply val_le_inv in Hle; [|lia]. nia.
    + pose proof (exp_below_normal M E e1 mF eF He1 HF Hc) as Hd.
      pose proof (val_lt_digits mF eF M E ltac:(unfold base; lia) HE Hd). lia.
Qed.

Lemma bra_upper M E mF eF :
  base <= E -> E <= fexp prec emax (digits M + E) ->
  canonical mF eF = true -> eF <= 971 ->
  val (Zpos M) E <= val (Zpos mF) eF ->
  bra false (Zpos M) E loc_Exact = S754_zero false \/
  exists m e, bra false (Zpos M) E loc_Exact = S754_finite false m e /\
              canonical m e = true /\ e <= 971 /\
              val (Zpos m) e <= val (Zpos mF) eF.
Proof.
  intros HE Hn HF HeF Hle.
  destruct (bra_spec M E Hn)
    as (m1 & Hb & Hex & [[H0 Hr]|(m2 & e2 & Hc & He & Hv & Hr)]); [left; exact Hr|].
  right. rewrite fexp64 in *.
  assert (val (Zpos m2) e2 <= val (Zpos mF) eF) as Hm2.
  { rewrite <- (val_shift (Zpos m2) (Z.max (digits M + E - 53) (-1074)) e2) by lia.
    rewrite Hv.
    apply (sandwich_upper M E _ mF eF); try assumption; lia. }
  assert (e2 <= 971) as He2.
  { destruct (Z.le_gt_cases e2 971); [assumption|].
    pose proof (canonical_exp_lt mF eF m2 e2 HF Hc ltac:(lia)). lia. }
  exists m2, e2. rewrite Hr.
  destruct (Z.leb_spec e2 971); [|lia]. repeat split; assumption.
Qed.

Lemma bra_lower M E mF eF :
  base <= E -> E <= fexp prec emax (digits M + E) ->
  canonical mF eF = true ->
  val (Zpos mF) eF <= val (Zpos M) E ->
  bra false (Zpos M) E loc_Exact = S754_infinity false \/
  exists m e, bra false (Zpos M) E loc_Exact = S754_finite false m e /\
              canonical m e = true /\
              val (Zpos mF) eF <= val (Zpos m) e.
Proof.
  intros HE Hn HF Hle.
  pose proof (canonical_facts _ _ HF) as HcF.
  pose proof (val_pos (Zpos mF) eF ltac:(lia) ltac:(unfold base; lia)) as HFpos.
  destruct (bra_spec M E Hn)
    as (m1 & Hb & Hex & Hcases).
  rewrite fexp64 in *.
  pose proof (sandwich_lower M E _ mF eF HE eq_refl Hn HF Hle) as Hq.
  assert (val (Zpos mF) eF <= val m1 (Z.max (digits M + E - 53) (-1074))) as Hm1.
  { eapply Z.le_trans; [exact Hq|]. apply val_le; lia. }
  destruct Hcases as [[H0 Hr]|(m2 & e2 & Hc & He & Hv & Hr)].
  - rewrite H0 in Hm1. unfold val in Hm1, HFpos. lia.
  - rewrite Hr. destruct (e2 <=? 971); [right|left; reflexivity].
    exists m2, e2. split; [reflexivity|]. split; [exact Hc|].
    rewrite <- (val_shift (Zpos m2) (Z.max (digits M + E - 53) (-1074)) e2) by lia.
    rewrite Hv. exact Hm1.
Qed.

(** *** Alignment *)

Lemma iter_xO m d : Zpos (Pos.iter xO m d) = Zpos m * 2 ^ Zpos d.
Proof.
  induction d as [|d IH] using Pos.peano_ind.
  - cbn. lia.
  - rewrite Pos.iter_succ, Pos2Z.inj_succ, Z.pow_succ_r by lia.
    change (Zpos (Pos.iter xO m d)~0) with (2 * Zpos (Pos.iter xO m d)).
    rewrite IH. ring.
Qed.

Lemma shl_align_spec m e e' :
  exists m', shl_align m e e' = (m', Z.min e e') /\
             Zpos m' = Zpos m * 2 ^ (e - Z.min e e').
Proof.
  unfold shl_align. destruct (e' - e) as [|d|d] eqn:Hd.
  - exists m. replace (Z.min e e') with e by lia. rewrite Z.sub_diag. split; [reflexivity|cbn; lia].
  - exists m. replace (Z.min e e') with e by lia. rewrite Z.sub_diag. split; [reflexivity|cbn; lia].
  - exists (Pos.iter xO m d). replace (Z.min e e') with e' by lia.
    split; [reflexivity|]. rewrite iter_xO. f_equal. f_equal. lia.
Qed.

Lemma digits_shift m m' k :
  0 <= k -> Zpos m' = Zpos m * 2 ^ k -> digits m' = digits m + k.
Proof.
  intros Hk Hm. pose proof (digits_bounds m) as [Hl Hu]. pose proof (digits_pos m).
  apply digits_unique. rewrite Hm.
  replace (digits m + k - 1) with ((digits m - 1) + k) by lia.
  rewrite !Z.pow_add_r by lia.
  assert (0 < 2 ^ k) by (apply Z.pow_pos_nonneg; lia). nia.
Qed.

Lemma digits_mul m1 m2 : digits m1 + digits m2 - 1 <= digits (m1 * m2).
Proof.
  pose proof (digits_bounds m1) as [Hl1 _]. pose proof (digits_bounds m2) as [Hl2 _].
  pose proof (digits_bounds (m1 * m2)) as [_ Hu].
  pose proof (digits_pos m1). pose proof (digits_pos m2). pose proof (digits_pos (m1 * m2)).
  destruct (Z.le_gt_cases (digits m1 + digits m2 - 1) (digits (m1 * m2))); [assumption|].
  assert (2 ^ digits (m1 * m2) <= 2 ^ (digits m1 - 1 + (digits m2 - 1)))
    by (apply pow2_le; lia).
  rewrite Z.pow_add_r in * by lia. rewrite Pos2Z.inj_mul in Hu.
  assert (0 < 2 ^ (digits m1 - 1)) by (apply Z.pow_pos_nonneg; lia).
  assert (0 < 2 ^ (digits m2 - 1)) by (apply Z.pow_pos_nonneg; lia).
  nia.
Qed.

(** *** The two operations on positive floats *)

Abbreviation posf := (S754_finite false).

Lemma val_add a b e : val (a + b) e = val a e + val b e.
Proof. unfold val. ring. Qed.

(** Below one: the exponent is negative and the mantissa below its
    power. *)
Lemma below_one m e :
  base <= e -> val (Zpos m) e < val 1 0 -> e < 0 /\ Zpos m < 2 ^ (- e).
Proof.
  intros He Hlt. unfold val in Hlt. rewrite Z.mul_1_l in Hlt.
  assert (0 < 2 ^ (e - base)) by (apply Z.pow_pos_nonneg; lia).
  assert (e < 0) as Hneg.
  { destruct (Z.lt_ge_cases e 0); [assumption|].
    assert (2 ^ (0 - base) <= 2 ^ (e - base)) by (apply pow2_le; unfold base; lia).
    nia. }
  split; [exact Hneg|].
  rewrite (pow2_split e 0 base) in Hlt by (unfold base in *; lia).
  replace (0 - e) with (- e) in Hlt by lia.
  assert (0 < 2 ^ (- e)) by (apply Z.pow_pos_nonneg; lia). nia.
Qed.

Lemma SFmul_upper mD eD mU eU :
  canonical mD eD = true -> digits mD = 53 -> eD <= 971 ->
  canonical mU eU = true -> base <= eD + eU ->
  val (Zpos mU) eU < val 1 0 ->
  SFmul prec emax (posf mD eD) (posf mU eU) = S754_zero false \/
  exists m e, SFmul prec emax (posf mD eD) (posf mU eU) = posf m e /\
              canonical m e = true /\ e <= 971 /\
              val (Zpos m) e <= val (Zpos mD) eD.
Proof.
  intros HD HdD HeD HU Hb Hlt.
  pose proof (canonical_facts _ _ HD) as HcD.
  pose proof (canonical_facts _ _ HU) as HcU.
  cbn [SFmul xorb].
  apply bra_upper; try assumption.
  - rewrite fexp64. pose proof (digits_mul mD mU). pose proof (digits_pos mU). lia.
  - destruct (below_one mU eU ltac:(unfold base; lia) Hlt) as [Hneg Hm].
    unfold val. rewrite Pos2Z.inj_mul.
    rewrite (pow2_split (eD + eU) eD base) by lia.
    replace (eD - (eD + eU)) with (- eU) by lia.
    assert (0 < 2 ^ (eD + eU - base)) by (apply Z.pow_pos_nonneg; lia).
    nia.
Qed.

Lemma SFadd_between mA eA mY eY ml el mh eh :
  canonical mA eA = true -> canonical mY eY = true ->
  canonical ml el = true -> canonical mh eh = true -> eh <= 971 ->
  val (Zpos ml) el <= val (Zpos mA) eA + val (Zpos mY) eY ->
  val (Zpos mA) eA + val (Zpos mY) eY <= val (Zpos mh) eh ->
  exists m e, SFadd prec emax (posf mA eA) (posf mY eY) = posf m e /\
              canonical m e = true /\ e <= 971 /\
              val (Zpos ml) el <= val (Zpos m) e /\
              val (Zpos m) e <= val (Zpos mh) eh.
Proof.
  intros HA HY Hl Hh Heh Hlo Hhi.
  pose proof (canonical_facts _ _ HA) as HcA.
  pose proof (canonical_facts _ _ HY) as HcY.
  cbn [SFadd cond_Zopp].
  set (ez := Z.min eA eY).
  destruct (shl_align_spec mA eA ez) as (a & Ha & Hav).
  destruct (shl_align_spec mY eY ez) as (y & Hy & Hyv).
  rewrite Ha, Hy. cbn [fst].
  replace (Z.min eA ez) with ez in Hav by lia.
  replace (Z.min eY ez) with ez in Hyv by lia.
  change (Zpos a + Zpos y) with (Zpos (a + y)).
  cbn [binary_normalize]. unfold binary_round.
  change (Zpos (digits2_pos (a + y))) with (digits (a + y)).
  set (fe := fexp prec emax (digits (a + y) + ez)).
  assert (fe = Z.max (digits (a + y) + ez - 53) (-1074)) as Hfe by apply fexp64.
  destruct (shl_align_spec (a + y) ez fe) as (z & Hz & Hzv).
  rewrite Hz.
  assert (val (Zpos z) (Z.min ez fe) = val (Zpos mA) eA + val (Zpos mY) eY) as Hval.
  { rewrite Hzv, val_shift by (unfold base; lia).
    rewrite Pos2Z.inj_add, val_add, Hav, Hyv.
    rewrite !val_shift by (unfold base; lia). reflexivity. }
  assert (digits z + Z.min ez fe = digits (a + y) + ez) as Hdz.
  { rewrite (digits_shift (a + y) z (ez - Z.min ez fe)) by (lia || exact Hzv). lia. }
  assert (Z.min ez fe <= fexp prec emax (digits z + Z.min ez fe)) as Hn.
  { rewrite Hdz. fold fe. lia. }
  assert (base <= Z.min ez fe) as Hb by (unfold base; lia).
  destruct (bra_upper z (Z.min ez fe) mh eh Hb Hn Hh Heh ltac:(lia))
    as [H0|(m & e & Hr & Hc & He & Hv)].
  - destruct (bra_lower z (Z.min ez fe) ml el Hb Hn Hl ltac:(lia))
      as [Hi|(m & e & Hr & _)]; congruence.
  - exists m, e. split; [exact Hr|]. split; [exact Hc|]. split; [exact He|].
    split; [|exact Hv].
    destruct (bra_lower z (Z.min ez fe) ml el Hb Hn Hl ltac:(lia))
      as [Hi|(m' & e' & Hr' & _ & Hv')]; [congruence|].
    rewrite Hr in Hr'. injection Hr' as <- <-. exact Hv'.
Qed.

(** *** A draw scaled and added *)

Lemma valid_finite s m e :
  valid_binary (S754_finite s m e) = true -> canonical m e = true /\ e <= 971.
Proof.
  cbn [SpecFloat.valid_binary]. unfold bounded. intros H.
  apply andb_prop in H as [Hc He]. apply Z.leb_le in He. split; [exact Hc|exact He].
Qed.

Lemma uniform_sf_bounds mA eA mD eD ml el mh eh U :
  canonical mA eA = true -> canonical mD eD = true -> digits mD = 53 -> eD <= 971 ->
  canonical ml el = true -> canonical mh eh = true -> eh <= 971 ->
  base + 1074 <= eD ->
  val (Zpos ml) el <= val (Zpos mA) eA ->
  val (Zpos mA) eA + val (Zpos mD) eD <= val (Zpos mh) eh ->
  valid_binary U = true ->
  SFleb (S754_zero false) U = true ->
  SFltb U (posf 4503599627370496 (-52)) = true ->
  SFleb (posf ml el) (SFadd prec emax (posf mA eA) (SFmul prec emax (posf mD eD) U)) = true /\
  SFleb (SFadd prec emax (posf mA eA) (SFmul prec emax (posf mD eD) U)) (posf mh eh) = true.
Proof.
  intros HA HD HdD HeD Hl Hh Heh Hb Hlo Hhi HU H0 H1.
  pose proof (canonical_facts _ _ HD) as HcD.
  pose proof (val_pos (Zpos mD) eD ltac:(lia) ltac:(unfold base; lia)) as HDpos.
  assert (SFleb (posf ml el) (posf mA eA) = true /\ SFleb (posf mA eA) (posf mh eh) = true)
    as Hzero.
  { split; apply SFleb_canonical; try assumption; lia. }
  destruct U as [s|s| |s m e].
  - exact Hzero.
  - destruct s; discriminate.
  - discriminate.
  - destruct s; [discriminate|].
    apply valid_finite in HU as [HUc HUe].
    pose proof (canonical_facts _ _ HUc) as HcU.
    assert (val (Zpos m) e < val 1 0) as Hlt.
    { rewrite <- (val_shift 1 (-52) 0) by (unfold base; lia).
      apply SFltb_canonical_inv; [exact HUc|reflexivity|exact H1]. }
    destruct (SFmul_upper mD eD m e HD HdD HeD HUc ltac:(lia) Hlt)
      as [Hz|(my & ey & Hy & Hyc & Hye & Hyv)].
    + rewrite Hz. exact Hzero.
    + rewrite Hy.
      pose proof (canonical_facts _ _ Hyc) as HcY.
      pose proof (val_pos (Zpos my) ey ltac:(lia) ltac:(unfold base; lia)).
      destruct (SFadd_between mA eA my ey ml el mh eh HA Hyc Hl Hh Heh ltac:(lia) ltac:(lia))
        as (mr & er & Hr & Hrc & Hre & Hrl & Hrh).
      rewrite Hr. split; apply SFleb_canonical; assumption.
Qed.

Theorem scaled_draw_bounds (a d lo hi u : float) :
  range_check a d lo hi = true ->
  (0 <=? u)%float = true -> (u <? 1)%float = true ->
  (lo <=? a + d * u)%float = true /\ (a + d * u <=? hi)%float = true.
Proof.
  unfold range_check. intros Hchk H0 H1.
  rewrite leb_spec in H0. rewrite ltb_spec in H1.
  rewrite !leb_spec, add_spec, mul_spec.
  pose proof (Prim2SF_valid a) as Va. pose proof (Prim2SF_valid d) as Vd.
  pose proof (Prim2SF_valid lo) as Vl. pose proof (Prim2SF_valid hi) as Vh.
  pose proof (Prim2SF_valid u) as Vu.
  destruct (Prim2SF a) as [| | |[|] mA eA]; try discriminate.
  destruct (Prim2SF d) as [| | |[|] mD eD]; try discriminate.
  destruct (Prim2SF lo) as [| | |[|] ml el]; try discriminate.
  destruct (Prim2SF hi) as [| | |[|] mh eh]; try discriminate.
  apply andb_prop in Hchk as [Hchk C4]. apply andb_prop in Hchk as [Hchk C3].
  apply andb_prop in Hchk as [C1 C2].
  apply Z.eqb_eq in C1. apply Z.leb_le in C2, C3, C4.
  apply valid_finite in Va as [? ?], Vd as [? ?], Vl as [? ?], Vh as [? ?].
  apply uniform_sf_bounds; assumption.
Qed.

End B64Facts.

(** *** Bounds in binary64 arithmetic *)

Section Binary64Arithmetic.

#[local] Existing Instance binary64.

(** C6 as stated fails in the arithmetic of the interpreter. For the
    draws 0 and 1 - 2^-53, the least and the greatest value
    [random.random()] returns, the temperature becomes
    0.7899999999999999, below 0.79, and the penalty
    0.29000000000000004, above 0.29. *)
Lemma jiggle_randomness_binary64_rounding :
  @jiggle_randomness binary64 0.3%float 0%float 0x1.fffffffffffffp-1%float
    (example_config binary64 0.7%float 0.2%float)
  = (<["frequency_penalty" := PFloat 0.29000000000000004%float]>
       (<["temperature" := PFloat 0.7899999999999999%float]>
          (example_config binary64 0.7%float 0.2%float)), Ok tt) /\
  PrimFloat.ltb 0.7899999999999999%float 0.79%float = true /\
  PrimFloat.ltb 0.29%float 0.29000000000000004%float = true /\
  PrimFloat.ltb 0x1.fffffffffffffp-1%float 1%float = true.
Proof. repeat split. Qed.

(** C6, as amended. In the arithmetic of the interpreter, for every value
    [u1] and [u2] of the two draws with [0 <= u < 1],
    [jiggle_randomness] called with offset [0.3] on the mapping with
    temperature [0.7] and frequency_penalty [0.2] returns and leaves the
    temperature [uniform (0.7 + min_offset) (0.7 + 0.3) u1] and the
    penalty [uniform (0.2 + min_offset * 0.3) (0.2 + 0.3 * 0.3) u2],
    where [min_offset = 0.3 * 0.3]; the temperature lies in
    [0.7899999999999999, 1.0] and the penalty in
    [0.227, 0.29000000000000004], so above [0.218]. All the bounds are
    comparisons of binary64 numbers. *)
Theorem jiggle_randomness_binary64_bounds (u1 u2 : float) :
  (0 <=? u1)%float = true -> (u1 <? 1)%float = true ->
  (0 <=? u2)%float = true -> (u2 <? 1)%float = true ->
  exists t f : float,
    @jiggle_randomness binary64 0.3%float u1 u2
      (example_config binary64 0.7%float 0.2%float)
    = (<["frequency_penalty" := PFloat f]>
         (<["temperature" := PFloat t]>
            (example_config binary64 0.7%float 0.2%float)), Ok tt) /\
    t = @uniform binary64 (0.7 + 0.3 * 0.3)%float (0.7 + 0.3)%float u1 /\
    f = @uniform binary64 (0.2 + 0.3 * 0.3 * 0.3)%float (0.2 + 0.3 * 0.3)%float u2 /\
    (0.7899999999999999 <=? t)%float = true /\ (t <=? 1)%float = true /\
    (0.218 <=? f)%float = true /\
    (0.227 <=? f)%float = true /\ (f <=? 0.29000000000000004)%float = true.
Proof.
  intros Hu1 Hu1' Hu2 Hu2'.
  exists (@uniform binary64 (0.7 + 0.3 * 0.3)%float (0.7 + 0.3)%float u1),
         (@uniform binary64 (0.2 + 0.3 * 0.3 * 0.3)%float (0.2 + 0.3 * 0.3)%float u2).
  split; [reflexivity|]. split; [reflexivity|]. split; [reflexivity|].
  destruct (B64Facts.scaled_draw_bounds
              (0.7 + 0.3 * 0.3)%float ((0.7 + 0.3) - (0.7 + 0.3 * 0.3))%float
              0.7899999999999999%float 1%float u1)
    as [Ht Ht']; [vm_compute; reflexivity|exact Hu1|exact Hu1'|].
  destruct (B64Facts.scaled_draw_bounds
              (0.2 + 0.3 * 0.3 * 0.3)%float
              ((0.2 + 0.3 * 0.3) - (0.2 + 0.3 * 0.3 * 0.3))%float
              0.227%float 0.29000000000000004%float u2)
    as [Hf Hf']; [vm_compute; reflexivity|exact Hu2|exact Hu2'|].
  destruct (B64Facts.scaled_draw_bounds
              (0.2 + 0.3 * 0.3 * 0.3)%float
              ((0.2 + 0.3 * 0.3) - (0.2 + 0.3 * 0.3 * 0.3))%float
              0.218%float 0.29000000000000004%float u2)
    as [Hf0 _]; [vm_compute; reflexivity|exact Hu2|exact Hu2'|].
  repeat split; assumption.
Qed.

(** C6, as amended, on the draws [0] and [0.5]. *)
Lemma jiggle_randomness_binary64_bounds_witness :
  exists t f : float,
    @jiggle_randomness binary64 0.3%float 0%float 0.5%float
      (example_config binary64 0.7%float 0.2%float)
    = (<["frequency_penalty" := PFloat f]>
         (<["temperature" := PFloat t]>
            (example_config binary64 0.7%float 0.2%float)), Ok tt) /\
    t = @uniform binary64 (0.7 + 0.3 * 0.3)%float (0.7 + 0.3)%float 0%float /\
    f = @uniform binary64 (0.2 + 0.3 * 0.3 * 0.3)%float (0.2 + 0.3 * 0.3)%float 0.5%float /\
    (0.7899999999999999 <=? t)%float = true /\ (t <=? 1)%float = true /\
    (0.218 <=? f)%float = true /\
    (0.227 <=? f)%float = true /\ (f <=? 0.29000000000000004)%float = true.
Proof.
  apply (jiggle_randomness_binary64_bounds 0%float 0.5%float); reflexivity.
Defined.

End Binary64Arithmetic.

(** * Further properties of the adapter *)

(** ** Strings: where the marker can occur *)

Module StrMarker.
Import Str StrFacts.

Lemma startswith_append_l sep a b :
  startswith sep a = true -> startswith sep (a ++ b) = true.
Proof.
  revert a. induction sep as [|c sep IH]; intros a Ha; [reflexivity|].
  destruct a as [|x a]; [discriminate|]. rewrite append_cons.
  simpl in *. apply andb_prop in Ha as [Hc Ha]. rewrite Hc. cbn. apply IH, Ha.
Qed.

(** A string that starts with [sep] once a character and more text are
    put after [l] either starts with [sep] already, or [sep] has that
    character. *)
Lemma startswith_append_char sep l x y :
  startswith sep (l ++ String x y) = true ->
  startswith sep l = true \/ In x (list_ascii_of_string sep).
Proof.
  revert l. induction sep as [|c sep IH]; intros l Hs; [left; reflexivity|].
  destruct l as [|b l].
  - change ("" ++ String x y) with (String x y) in Hs. simpl in Hs.
    apply andb_prop in Hs as [Hc _]. apply Ascii.eqb_eq in Hc. subst.
    right. left. reflexivity.
  - rewrite append_cons in Hs. simpl in Hs.
    apply andb_prop in Hs as [Hc Hs]. destruct (IH l Hs) as [Hl|Hin].
    + left. simpl. rewrite Hc, Hl. reflexivity.
    + right. right. exact Hin.
Qed.

(** The text before the first occurrence has no occurrence. *)
Lemma partition_left_free sep s l r :
  sep <> "" -> partition sep s = Some (l, r) -> contains sep l = false.
Proof.
  intros Hsep. revert l. induction s as [|c s IH]; intros l; simpl.
  - destruct (startswith sep ""); [|discriminate]. intros [= <- <-].
    destruct sep; [congruence|reflexivity].
  - destruct (startswith sep (String c s)) eqn:Hp.
    + intros [= <- <-]. destruct sep; [congruence|reflexivity].
    + destruct (partition sep s) as [[l0 r0]|] eqn:Hq; [|discriminate].
      intros [= <- <-]. simpl. rewrite (IH l0 eq_refl), orb_false_r.
      destruct (startswith sep (String c l0)) eqn:Hl; [|reflexivity].
      apply (startswith_append_l _ _ (sep ++ r0)) in Hl.
      rewrite append_cons, <- (partition_Some _ _ _ _ Hq) in Hl. congruence.
Qed.

Lemma contains_cons_false sep c s :
  contains sep (String c s) = false ->
  startswith sep (String c s) = false /\ contains sep s = false.
Proof. simpl. intros Hc. apply orb_false_elim in Hc. exact Hc. Qed.

End StrMarker.

(** ** Prompt assembly: the result has no marker *)

Section PromptTemplateMore.

Context `{Arith} `{!ClientBase}.

(** The cue between a marker-free text and a marker-free text makes no
    marker: the marker and the cue have no character in common. *)
Lemma contains_cue_between l t :
  Str.contains BOT l = false -> Str.contains BOT t = false ->
  Str.contains BOT (l ++ CUE ++ t) = false.
Proof.
  intros Hl Ht. induction l as [|c l IH].
  - change ("" ++ CUE ++ t) with (CUE ++ t).
    cbv [CUE String.append ascii_of_nat ascii_of_pos]. simpl. exact Ht.
  - apply StrMarker.contains_cons_false in Hl as [Hs Hl].
    rewrite StrFacts.append_cons.
    change (Str.contains BOT (String c (l ++ CUE ++ t)))
      with (Str.startswith BOT (String c (l ++ CUE ++ t))
            || Str.contains BOT (l ++ CUE ++ t)).
    rewrite (IH Hl), orb_false_r.
    destruct (Str.startswith BOT (String c (l ++ CUE ++ t))) eqn:Hst; [|reflexivity].
    rewrite <- StrFacts.append_cons in Hst.
    change (CUE ++ t)
      with (String (ascii_of_nat 10) ("Start your response with: " ++ t)) in Hst.
    apply StrMarker.startswith_append_char in Hst as [Hst|Hin]; [congruence|].
    exfalso. cbn in Hin.
    repeat (destruct Hin as [Hin|Hin]; [discriminate Hin|]). exact Hin.
Qed.

(** Replacing the marker by the cue leaves no marker. *)
Lemma replace_cue_free s : Str.contains BOT (Str.replace BOT CUE s) = false.
Proof.
  remember (String.length s) as n eqn:Hn.
  assert (String.length s <= n) as Hle by lia. clear Hn.
  revert s Hle. induction n as [|n IH]; intros s Hle.
  - destruct s; [reflexivity|simpl in Hle; lia].
  - destruct (Str.partition BOT s) as [[l r]|] eqn:Hp.
    + rewrite (StrFacts.replace_step _ _ _ _ _ BOT_nonempty Hp).
      apply contains_cue_between.
      * apply (StrMarker.partition_left_free _ _ _ _ BOT_nonempty Hp).
      * apply IH. apply StrFacts.partition_length in Hp.
        change (String.length BOT) with 7 in Hp. lia.
    + rewrite (StrFacts.replace_absent _ _ _ Hp).
      apply StrFacts.partition_None, Hp.
Qed.

(** With the flag set [prompt_template] returns, and what it returns has
    no marker. *)
Lemma prompt_template_result_free a system_message prompt :
  truthy (api_handles_prompt_template a) = true ->
  exists q, prompt_template a system_message prompt = Ok q /\
            Str.contains BOT q = false.
Proof.
  intros Hf. destruct (Str.partition BOT prompt) as [[l r]|] eqn:Hp.
  - rewrite (prompt_template_marker a system_message prompt l r Hf Hp).
    eexists. split; [reflexivity|]. destruct r as [|c r]; cbn [Str.nonempty].
    + rewrite (StrFacts.replace_step _ _ _ _ _ BOT_nonempty Hp).
      change (Str.replace BOT "" "") with "". change ("" ++ "") with "".
      rewrite StrFacts.append_nil_r.
      apply (StrMarker.partition_left_free _ _ _ _ BOT_nonempty Hp).
    + apply replace_cue_free.
  - apply StrFacts.partition_None in Hp. exists prompt. split; [|exact Hp].
    apply prompt_template_no_marker; assumption.
Qed.

(** X1. When the API handles the prompt template, [prompt_template]
    never raises and its result never contains the marker [<|BOT|>],
    however many markers the prompt has. *)
Theorem prompt_template_marker_free a system_message prompt :
  truthy (api_handles_prompt_template a) = true ->
  exists q, prompt_template a system_message prompt = Ok q /\
            Str.contains BOT q = false.
Proof. apply prompt_template_result_free. Qed.

(** X2. When the API handles the prompt template, [prompt_template] is
    idempotent: applied to its own result it returns that result. *)
Theorem prompt_template_idempotent a system_message prompt q :
  truthy (api_handles_prompt_template a) = true ->
  prompt_template a system_message prompt = Ok q ->
  prompt_template a system_message q = Ok q.
Proof.
  intros Hf Hq.
  destruct (prompt_template_result_free a system_message prompt Hf)
    as (q' & Hq' & Hfree).
  rewrite Hq in Hq'. injection Hq' as <-.
  apply prompt_template_no_marker; assumption.
Qed.

End PromptTemplateMore.

(** X1 on a prompt with two markers. *)
Lemma prompt_template_marker_free_witness :
  exists q,
    @prompt_template binary64 (stub_base binary64) (self handled_world) ""
      "a<|BOT|>b<|BOT|>c" = Ok q /\
    Str.contains BOT q = false.
Proof.
  exact (@prompt_template_marker_free binary64 (stub_base binary64)
           (self handled_world) "" "a<|BOT|>b<|BOT|>c" eq_refl).
Defined.

(** X2 on the specification's first example. *)
Lemma prompt_template_idempotent_witness :
  @prompt_template binary64 (stub_base binary64) (self handled_world) ""
    ("Hello " ++ CUE ++ "world")
  = Ok ("Hello " ++ CUE ++ "world").
Proof.
  exact (@prompt_template_idempotent binary64 (stub_base binary64)
           (self handled_world) "" "Hello <|BOT|>world"
           ("Hello " ++ CUE ++ "world") eq_refl eq_refl).
Defined.

(** ** Reconfiguration: repetition, failure, and [set_client] *)

Section ReconfigureMore.

Context `{Builtins}.

Lemma py_or_absorb a b : py_or a (py_or a b) = py_or a b.
Proof. unfold py_or. destruct (truthy a); reflexivity. Qed.

Lemma dict_get_default_absorb kwargs k old :
  dict_get_default kwargs k (dict_get_default kwargs k old)
  = dict_get_default kwargs k old.
Proof. unfold dict_get_default. destruct (kwargs !! k); reflexivity. Qed.

(** The conversion gives the same value once its result is stored. *)
Lemma token_length_after_stable kwargs old n :
  token_length_after kwargs old = Ok n -> token_length_after kwargs n = Ok n.
Proof.
  unfold token_length_after. destruct (kwargs !! "max_token_length"); [tauto|].
  intros [= ->]. reflexivity.
Qed.

(** X3. [reconfigure] is idempotent on the configuration: called again
    with the same keyword arguments it returns again and leaves every
    stored field as the first call left it; only the client is replaced
    once more, by another handle bound to the same URL and key. *)
Theorem reconfigure_twice kwargs w n :
  token_length_after kwargs (max_token_length (self w)) = Ok n ->
  exists w1 w2,
    reconfigure kwargs w = (w1, Ok tt) /\
    reconfigure kwargs w1 = (w2, Ok tt) /\
    model_name (self w2) = model_name (self w1) /\
    api_key (self w2) = api_key (self w1) /\
    api_url (self w2) = api_url (self w1) /\
    max_token_length (self w2) = max_token_length (self w1) /\
    api_handles_prompt_template (self w2) = api_handles_prompt_template (self w1) /\
    base_url (client (self w2)) = base_url (client (self w1)) /\
    handle_api_key (client (self w2)) = handle_api_key (client (self w1)) /\
    handle_id (client (self w2)) = S (handle_id (client (self w1))).
Proof.
  intros Hn. eexists. eexists.
  split; [apply (reconfigure_run kwargs w n Hn)|].
  split.
  { apply (reconfigure_run kwargs _ n). cbn.
    apply (token_length_after_stable _ _ _ Hn). }
  cbn. rewrite py_or_absorb, !dict_get_default_absorb. repeat split.
Qed.

(** X4. When [max_token_length] is a non-empty string that [int] rejects,
    [reconfigure] raises [ValueError] half way: the model name and the
    URL are already overwritten, while the API key, the template flag,
    the token length and the client are as before, whatever the call
    gave for them. *)
Theorem reconfigure_conversion_error kwargs w s :
  kwargs !! "max_token_length" = Some (CStr s) ->
  s <> "" ->
  int_of_str s = None ->
  exists w',
    reconfigure kwargs w = (w', Raise ValueError) /\
    model_name (self w') = model_name_first kwargs (model_name (self w)) /\
    api_url (self w') = dict_get_default kwargs "api_url" (api_url (self w)) /\
    api_key (self w') = api_key (self w) /\
    api_handles_prompt_template (self w') = api_handles_prompt_template (self w) /\
    max_token_length (self w') = max_token_length (self w) /\
    client (self w') = client (self w) /\
    fresh w' = fresh w.
Proof.
  intros Hk Hs Hi. eexists. split.
  - apply reconfigure_raise. unfold token_length_after. rewrite Hk.
    destruct s; [congruence|]. cbn. rewrite Hi. reflexivity.
  - cbn. repeat split.
Qed.

(** X5. For keyword arguments without [api_url] and [max_token_length],
    [reconfigure] is [set_client]. *)
Theorem reconfigure_is_set_client kwargs w :
  kwargs !! "api_url" = None ->
  kwargs !! "max_token_length" = None ->
  reconfigure kwargs w = set_client kwargs w.
Proof.
  intros Hu Hm.
  rewrite (reconfigure_run kwargs w (max_token_length (self w))).
  - rewrite set_client_run. unfold dict_get_default at 2 4. rewrite Hu. reflexivity.
  - unfold token_length_after. rewrite Hm. reflexivity.
Qed.

(** X6. [set_client] reads four keys only. Any other key, [api_url] and
    [max_token_length] among them, changes nothing: the new client is
    bound to the stored URL, which [set_client] never changes. *)
Theorem set_client_ignores k v kwargs w :
  k ∉ ["api_key"; "api_handles_prompt_template"; "model"; "model_name"] ->
  set_client (<[k := v]> kwargs) w = set_client kwargs w /\
  api_url (self (set_client (<[k := v]> kwargs) w).1) = api_url (self w) /\
  base_url (client (self (set_client (<[k := v]> kwargs) w).1)) = api_url (self w).
Proof.
  intros Hk.
  assert (forall k', k' ∈ ["api_key"; "api_handles_prompt_template"; "model";
                           "model_name"] ->
                     <[k := v]> kwargs !! k' = kwargs !! k') as Hl.
  { intros k' Hk'. apply lookup_insert_ne. intros ->. contradiction. }
  rewrite !set_client_run. unfold dict_get, dict_get_default.
  rewrite !Hl by set_solver. repeat split.
Qed.

End ReconfigureMore.

(** X3 on a call that gives a model, a URL and a token length. *)
Lemma reconfigure_twice_witness :
  exists w1 w2,
    @reconfigure stub_builtins
      {[ "model" := CStr "big"; "api_url" := CStr "http://host:1";
         "max_token_length" := CInt 0 ]} handled_world = (w1, Ok tt) /\
    @reconfigure stub_builtins
      {[ "model" := CStr "big"; "api_url" := CStr "http://host:1";
         "max_token_length" := CInt 0 ]} w1 = (w2, Ok tt) /\
    model_name (self w2) = model_name (self w1) /\
    handle_id (client (self w2)) = S (handle_id (client (self w1))).
Proof.
  assert (@token_length_after stub_builtins
            {[ "model" := CStr "big"; "api_url" := CStr "http://host:1";
               "max_token_length" := CInt 0 ]}
            (max_token_length (self handled_world)) = Ok (CInt 8192)) as Hn
    by reflexivity.
  destruct (@reconfigure_twice stub_builtins _ handled_world _ Hn)
    as (w1 & w2 & H1 & H2 & Hm & _ & _ & _ & _ & _ & _ & Hid).
  exists w1, w2. repeat split; assumption.
Defined.

(** X4 on a call that gives a new key and a token length that is no
    numeral. *)
Lemma reconfigure_conversion_error_witness :
  exists w',
    @reconfigure stub_builtins
      {[ "api_key" := CStr "secret"; "api_url" := CStr "http://host:1";
         "max_token_length" := CStr "many" ]} handled_world
    = (w', Raise ValueError) /\
    api_url (self w') = CStr "http://host:1" /\
    api_key (self w') = CStr "k" /\
    client (self w') = client (self handled_world).
Proof.
  assert (({[ "api_key" := CStr "secret"; "api_url" := CStr "http://host:1";
              "max_token_length" := CStr "many" ]} : gmap string cval)
          !! "max_token_length" = Some (CStr "many")) as Hk by reflexivity.
  destruct (@reconfigure_conversion_error stub_builtins _ handled_world "many" Hk
              ltac:(discriminate) eq_refl)
    as (w' & Hrun & _ & Hurl & Hkey & _ & _ & Hclient & _).
  exists w'. split; [exact Hrun|]. split; [|split]; [|exact Hkey|exact Hclient].
  rewrite Hurl. reflexivity.
Defined.

(** X5 on a call that gives a key and a flag. *)
Lemma reconfigure_is_set_client_witness :
  @reconfigure stub_builtins
    {[ "api_key" := CStr "secret"; "api_handles_prompt_template" := CBool false ]}
    handled_world
  = set_client
      {[ "api_key" := CStr "secret"; "api_handles_prompt_template" := CBool false ]}
      handled_world.
Proof.
  apply (@reconfigure_is_set_client stub_builtins); reflexivity.
Defined.

(** X6 on [api_url]. *)
Lemma set_client_ignores_witness :
  set_client (<["api_url" := CStr "http://host:1"]> ∅) handled_world
  = set_client ∅ handled_world.
Proof.
  refine (proj1 (set_client_ignores "api_url" (CStr "http://host:1") ∅
                   handled_world _)).
  vm_compute. intros Hin. repeat (apply elem_of_cons in Hin as [Hin|Hin];
                                   [discriminate Hin|]).
  apply elem_of_nil in Hin. exact Hin.
Defined.

(** ** Parameter tuning: what is kept *)

(** Closes a goal from a membership [H] of a key in a list of other
    keys. *)
Ltac absurd_elem H :=
  repeat (apply elem_of_cons in H as [H|H]; [discriminate H|]);
  apply elem_of_nil in H; exact H.

Section TuningMore.

Context `{Arith} `{!ClientBase} `{!Remote}.

(** X7. [tune_prompt_parameters] keeps the entries of [max_tokens],
    [top_p] and [temperature] as the parent's step left them, present or
    absent; it keeps [presence_penalty] when there is no
    [repetition_penalty]; and it binds no key outside the allowed ones. *)
Theorem tune_prompt_parameters_keeps a kind (d d1 : gmap string pval) :
  base_tune_prompt_parameters a kind d = (d1, Ok tt) ->
  exists d',
    tune_prompt_parameters a kind d = (d', Ok tt) /\
    d' !! "max_tokens" = d1 !! "max_tokens" /\
    d' !! "top_p" = d1 !! "top_p" /\
    d' !! "temperature" = d1 !! "temperature" /\
    (d1 !! "repetition_penalty" = None ->
       d' !! "presence_penalty" = d1 !! "presence_penalty") /\
    (forall k, k ∉ allowed_params -> d' !! k = None).
Proof.
  intros Hbase.
  destruct (tune_prompt_parameters_run a kind d d1 Hbase) as (d' & Hrun & Hd').
  exists d'. split; [exact Hrun|].
  repeat split.
  - rewrite Hd'. cbn. destruct (d1 !! "repetition_penalty"); [|reflexivity].
    rewrite lookup_insert_ne by discriminate.
    apply lookup_delete_ne. discriminate.
  - rewrite Hd'. cbn. destruct (d1 !! "repetition_penalty"); [|reflexivity].
    rewrite lookup_insert_ne by discriminate.
    apply lookup_delete_ne. discriminate.
  - rewrite Hd'. cbn. destruct (d1 !! "repetition_penalty"); [|reflexivity].
    rewrite lookup_insert_ne by discriminate.
    apply lookup_delete_ne. discriminate.
  - intros Hrep. rewrite Hd', Hrep. reflexivity.
  - intros k Hk. rewrite Hd'. unfold list_in.
    rewrite bool_decide_eq_false_2 by exact Hk. reflexivity.
Qed.

(** X8. A mapping that binds allowed keys only, and that the parent's
    step returns as it is, is returned as it is. *)
Theorem tune_prompt_parameters_fixed a kind (d : gmap string pval) :
  (forall k, is_Some (d !! k) -> k ∈ allowed_params) ->
  base_tune_prompt_parameters a kind d = (d, Ok tt) ->
  tune_prompt_parameters a kind d = (d, Ok tt).
Proof.
  intros Hall Hbase.
  destruct (tune_prompt_parameters_run a kind d d Hbase) as (d' & Hrun & Hd').
  rewrite Hrun. f_equal. apply map_eq. intros k. rewrite Hd'.
  assert (d !! "repetition_penalty" = None) as Hrep.
  { destruct (d !! "repetition_penalty") eqn:E; [|reflexivity].
    exfalso. assert ("repetition_penalty" ∈ allowed_params) as Hin
      by (apply Hall; rewrite E; eauto).
    unfold allowed_params in Hin. absurd_elem Hin. }
  rewrite Hrep. unfold list_in. case_bool_decide as Hk; [reflexivity|].
  destruct (d !! k) eqn:E; [|reflexivity].
  exfalso. apply Hk, Hall. rewrite E. eauto.
Qed.

(** X9. A mapping tuned by [tune_prompt_parameters] and then given to
    [generate] always reaches the endpoint: it has no [model] entry to
    clash with the keyword of the call, and what is sent binds [prompt]
    and allowed keys only. *)
Theorem tune_then_generate a kind prompt es (d d1 : gmap string pval) :
  base_tune_prompt_parameters a kind d = (d1, Ok tt) ->
  exists d',
    tune_prompt_parameters a kind d = (d', Ok tt) /\
    remote_outcome a prompt {| parameters := d'; emitted := es |}
      = completions_create (client a) (model_name a)
          (<["prompt" := PStr prompt]> d') /\
    forall k, is_Some (<["prompt" := PStr prompt]> d' !! k) ->
              k = "prompt" \/ k ∈ allowed_params.
Proof.
  intros Hbase.
  destruct (tune_prompt_parameters_run a kind d d1 Hbase) as (d' & Hrun & Hd').
  exists d'. split; [exact Hrun|].
  assert (forall k, is_Some (d' !! k) -> k ∈ allowed_params) as Hall.
  { intros k [v Hv]. rewrite Hd' in Hv. unfold list_in in Hv.
    case_bool_decide as Hk; [exact Hk|discriminate]. }
  split.
  - unfold remote_outcome, call_create, with_prompt, dict_in. cbn.
    rewrite bool_decide_eq_false_2; [reflexivity|].
    rewrite lookup_insert_ne by discriminate. intros Hm.
    apply Hall in Hm. unfold allowed_params in Hm. absurd_elem Hm.
  - intros k Hk. destruct (decide (k = "prompt")) as [->|Hne]; [left; reflexivity|].
    right. apply Hall. rewrite lookup_insert_ne in Hk by congruence. exact Hk.
Qed.

End TuningMore.

(** X7 on a mapping with an unsupported key. *)
Lemma tune_prompt_parameters_keeps_witness :
  exists d',
    @tune_prompt_parameters binary64 (stub_base binary64) (self plain_world) "conversation"
      {[ "temperature" := PInt 1; "top_k" := PInt 40 ]} = (d', Ok tt) /\
    d' !! "temperature" = Some (PInt 1) /\
    d' !! "stream" = None.
Proof.
  destruct (@tune_prompt_parameters_keeps binary64 (stub_base binary64)
              (self plain_world) "conversation"
              {[ "temperature" := PInt 1; "top_k" := PInt 40 ]}
              (<["stream" := PBool false]>
                 {[ "temperature" := PInt 1; "top_k" := PInt 40 ]}) eq_refl)
    as (d' & Hrun & _ & _ & Ht & _ & Hout).
  exists d'. split; [exact Hrun|]. split.
  - rewrite Ht. reflexivity.
  - apply Hout. unfold allowed_params. intros Hin. absurd_elem Hin.
Defined.

(** X8 with a parent class whose tuning step does nothing. *)
Lemma tune_prompt_parameters_fixed_witness :
  @tune_prompt_parameters binary64
    {| base_init := @base_init binary64 (stub_base binary64);
       base_tune_prompt_parameters := fun _ _ => mret tt;
       base_prompt_template := fun _ _ prompt => Ok prompt |}
    (self plain_world) "conversation"
    {[ "temperature" := PInt 1; "max_tokens" := PInt 64 ]}
  = ({[ "temperature" := PInt 1; "max_tokens" := PInt 64 ]}, Ok tt).
Proof.
  apply (@tune_prompt_parameters_fixed binary64); [|reflexivity].
  intros k [v Hv].
  destruct (decide (k = "temperature")) as [->|H1];
    [unfold allowed_params; do 3 right; left; reflexivity|].
  destruct (decide (k = "max_tokens")) as [->|H2]; [left; reflexivity|].
  rewrite lookup_insert_ne in Hv by congruence.
  rewrite lookup_singleton_ne in Hv by congruence. discriminate.
Defined.

(** X9 with an endpoint that answers. *)
Lemma tune_then_generate_witness :
  exists d',
    @tune_prompt_parameters binary64 (stub_base binary64) (self plain_world) "conversation"
      {[ "temperature" := PInt 1; "model" := PStr "other" ]} = (d', Ok tt) /\
    @remote_outcome binary64 (stub_remote binary64 (Ok {| choices := [] |}))
      (self plain_world) "Hi" {| parameters := d'; emitted := [] |}
    = Ok {| choices := [] |}.
Proof.
  destruct (@tune_then_generate binary64 (stub_base binary64)
              (stub_remote binary64 (Ok {| choices := [] |}))
              (self plain_world) "conversation" "Hi" []
              {[ "temperature" := PInt 1; "model" := PStr "other" ]}
              (<["stream" := PBool false]>
                 {[ "temperature" := PInt 1; "model" := PStr "other" ]}) eq_refl)
    as (d' & Hrun & Hsent & _).
  exists d'. split; [exact Hrun|]. rewrite Hsent. reflexivity.
Defined.

(** ** Generation: responses without choices, mappings with a model *)

Section GenerateMore.

Context `{Arith} `{!Remote}.

(** X10. A call that succeeds with a response that has no choice is
    handled as a failure: [generate] returns the empty string after one
    emission of the generic error. *)
Theorem generate_empty_choices a prompt kind g resp :
  remote_outcome a prompt g = Ok resp ->
  choices resp = [] ->
  generate a prompt kind g =
    (with_emission generic_emission (with_prompt prompt g), Ok "").
Proof. intros Hr Hc. rewrite generate_run, Hr, Hc. reflexivity. Qed.

(** X11. When the caller's mapping has the key [model], the endpoint is
    not reached: whatever the endpoint would answer, [generate] returns
    the empty string after one emission of the generic error, and the
    mapping keeps its [model] entry next to the prompt. *)
Theorem generate_model_clash a prompt kind g v :
  parameters g !! "model" = Some v ->
  generate a prompt kind g =
    (with_emission generic_emission (with_prompt prompt g), Ok "") /\
  parameters (generate a prompt kind g).1 !! "model" = Some v.
Proof.
  intros Hm.
  assert (remote_outcome a prompt g = Raise TypeError) as Hr.
  { unfold remote_outcome, call_create, with_prompt, dict_in. cbn.
    rewrite bool_decide_eq_true_2; [reflexivity|].
    rewrite lookup_insert_ne by discriminate. eauto. }
  rewrite generate_run, Hr. split; [reflexivity|].
  cbn. rewrite lookup_insert_ne by discriminate. exact Hm.
Qed.

End GenerateMore.

(** X10 on an endpoint that answers with no choice. *)
Lemma generate_empty_choices_witness :
  @generate binary64 (stub_remote binary64 (Ok {| choices := [] |}))
    (self plain_world) "Hi" "conversation" {| parameters := ∅; emitted := [] |}
  = ({| parameters := {[ "prompt" := PStr "Hi" ]};
        emitted := [generic_emission] |}, Ok "").
Proof.
  exact (@generate_empty_choices binary64 (stub_remote binary64 (Ok {| choices := [] |}))
           (self plain_world) "Hi" "conversation"
           {| parameters := ∅; emitted := [] |} {| choices := [] |}
           eq_refl eq_refl).
Defined.

(** X11 on an endpoint that would answer with a text. *)
Lemma generate_model_clash_witness :
  @generate binary64
    (stub_remote binary64 (Ok {| choices := [ {| text := "Hello" |} ] |}))
    (self plain_world) "Hi" "conversation"
    {| parameters := {[ "model" := PStr "other" ]}; emitted := [] |}
  = ({| parameters := {[ "prompt" := PStr "Hi"; "model" := PStr "other" ]};
        emitted := [generic_emission] |}, Ok "").
Proof.
  exact (proj1 (@generate_model_clash binary64
                  (stub_remote binary64 (Ok {| choices := [ {| text := "Hello" |} ] |}))
                  (self plain_world) "Hi" "conversation"
                  {| parameters := {[ "model" := PStr "other" ]}; emitted := [] |}
                  (PStr "other") eq_refl)).
Defined.

(** ** Randomized jitter: what is touched, and repeated calls *)

Section JiggleMore.

Context `{Arith}.

Lemma rep_pen_key_of_cases (d : gmap string pval) :
  (is_Some (d !! "frequency_penalty") /\ rep_pen_key_of d = "frequency_penalty") \/
  (d !! "frequency_penalty" = None /\ rep_pen_key_of d = "repetition_penalty").
Proof.
  unfold rep_pen_key_of, dict_in. case_bool_decide as Hf; [left; tauto|right].
  split; [|reflexivity].
  destruct (d !! "frequency_penalty") eqn:E; [|reflexivity]. exfalso. eauto.
Qed.

(** What a call of [jiggle_randomness] can leave: the mapping itself, the
    mapping with a new temperature, or the mapping with a new temperature
    and a new penalty, the rewritten keys being bound before. *)
Lemma jiggle_randomness_shape offset u1 u2 (d d' : gmap string pval) o :
  jiggle_randomness offset u1 u2 d = (d', o) ->
  d' = d \/
  (is_Some (d !! "temperature") /\
   ((exists x, d' = <["temperature" := PFloat x]> d) \/
    (is_Some (d !! rep_pen_key_of d) /\
     exists x y, d' = <[rep_pen_key_of d := PFloat y]>
                        (<["temperature" := PFloat x]> d)))).
Proof.
  intros Hrun.
  destruct (d !! "temperature") as [temp|] eqn:Ht.
  2:{ rewrite jiggle_randomness_no_temperature in Hrun by exact Ht.
      injection Hrun as <- <-. left. reflexivity. }
  destruct (d !! rep_pen_key_of d) as [rep_pen|] eqn:Hr.
  2:{ rewrite jiggle_randomness_no_penalty in Hrun by eauto.
      injection Hrun as <- <-. left. reflexivity. }
  rewrite (jiggle_randomness_run _ _ _ _ temp rep_pen Ht Hr) in Hrun.
  destruct (as_float temp) as [t|e]; [|injection Hrun as <- <-; left; reflexivity].
  cbv zeta in Hrun. right. split; [eauto|].
  destruct (as_float rep_pen) as [p|e]; injection Hrun as <- <-; eauto 8.
Qed.

(** X12. Whatever its outcome, [jiggle_randomness] binds exactly the keys
    the mapping bound before, and changes no entry besides [temperature]
    and the one repetition-control key it uses; in particular it leaves
    [repetition_penalty] alone when [frequency_penalty] is there. *)
Theorem jiggle_randomness_frame offset u1 u2 (d d' : gmap string pval) o :
  jiggle_randomness offset u1 u2 d = (d', o) ->
  (forall k, is_Some (d' !! k) <-> is_Some (d !! k)) /\
  (forall k, k <> "temperature" -> k <> rep_pen_key_of d -> d' !! k = d !! k) /\
  (is_Some (d !! "frequency_penalty") ->
     d' !! "repetition_penalty" = d !! "repetition_penalty").
Proof.
  intros Hrun.
  assert (forall k, is_Some (d' !! k) <-> is_Some (d !! k)) as Hdom.
  { intros k.
    destruct (jiggle_randomness_shape _ _ _ _ _ _ Hrun)
      as [->|[Ht [[x ->]|[Hr (x & y & ->)]]]]; [tauto| |].
    - destruct (decide (k = "temperature")) as [->|Hne].
      + rewrite lookup_insert_eq. split; eauto.
      + rewrite lookup_insert_ne by congruence. tauto.
    - destruct (decide (k = rep_pen_key_of d)) as [->|Hne1].
      + rewrite lookup_insert_eq. split; eauto.
      + rewrite lookup_insert_ne by congruence.
        destruct (decide (k = "temperature")) as [->|Hne2].
        * rewrite lookup_insert_eq. split; eauto.
        * rewrite lookup_insert_ne by congruence. tauto. }
  assert (forall k, k <> "temperature" -> k <> rep_pen_key_of d ->
                    d' !! k = d !! k) as Hother.
  { intros k Hk1 Hk2.
    destruct (jiggle_randomness_shape _ _ _ _ _ _ Hrun)
      as [->|[Ht [[x ->]|[Hr (x & y & ->)]]]]; [reflexivity| |].
    - apply lookup_insert_ne. congruence.
    - rewrite !lookup_insert_ne by congruence. reflexivity. }
  split; [exact Hdom|]. split; [exact Hother|].
  intros Hf. apply Hother; [discriminate|].
  destruct (rep_pen_key_of_cases d) as [[_ ->]|[Hn _]]; [discriminate|].
  rewrite Hn in Hf. destruct Hf as [? ?]. discriminate.
Qed.

(** X13. [jiggle_randomness] is not atomic: when the repetition-control
    entry is not a number, the exception of the addition is raised after
    the temperature has been rewritten, and the mapping keeps the new
    temperature. *)
Theorem jiggle_randomness_partial_write offset u1 u2 (d : gmap string pval)
    temp t rep_pen e :
  d !! "temperature" = Some temp ->
  as_float temp = Ok t ->
  d !! rep_pen_key_of d = Some rep_pen ->
  as_float rep_pen = Raise e ->
  jiggle_randomness offset u1 u2 d =
    (<["temperature" :=
         PFloat (uniform (nadd t (nmul offset lit_0_3)) (nadd t offset) u1)]> d,
     Raise e).
Proof.
  intros Ht Hat Hr Har.
  rewrite (jiggle_randomness_run _ _ _ _ temp rep_pen Ht Hr), Hat. cbv zeta.
  rewrite Har. reflexivity.
Qed.

End JiggleMore.


(** X12 on a mapping with both penalties and one more entry. *)
Lemma jiggle_randomness_frame_witness :
  (@jiggle_randomness binary64 0.3%float 0%float 0%float
     (<["repetition_penalty" := @PFloat binary64 1.1%float]>
        (<["max_tokens" := PInt 64]> (example_config binary64 0.7%float 0.2%float)))).1
  !! "repetition_penalty" = Some (@PFloat binary64 1.1%float).
Proof.
  destruct (@jiggle_randomness_frame binary64 0.3%float 0%float 0%float
              (<["repetition_penalty" := @PFloat binary64 1.1%float]>
                 (<["max_tokens" := PInt 64]> (example_config binary64 0.7%float 0.2%float)))
              _ _ (surjective_pairing _))
    as (_ & _ & Hrep).
  rewrite Hrep; [reflexivity|]. exists (@PFloat binary64 0.2%float). reflexivity.
Defined.

(** X13 on a mapping whose penalty is [None]. *)
Lemma jiggle_randomness_partial_write_witness :
  @jiggle_randomness binary64 0.3%float 0%float 0%float
    {[ "temperature" := @PFloat binary64 0.7%float;
       "repetition_penalty" := @PNone binary64 ]}
  = (<["temperature" :=
         @PFloat binary64 (@uniform binary64 (0.7 + 0.3 * 0.3)%float (0.7 + 0.3)%float 0%float)]>
       {[ "temperature" := @PFloat binary64 0.7%float;
          "repetition_penalty" := @PNone binary64 ]},
     Raise TypeError).
Proof.
  apply (@jiggle_randomness_partial_write binary64 0.3%float 0%float 0%float
           {[ "temperature" := @PFloat binary64 0.7%float;
              "repetition_penalty" := @PNone binary64 ]}
           (@PFloat binary64 0.7%float) 0.7%float PNone TypeError); reflexivity.
Defined.
